(** * fbhuploader: deployment of a static site to Firebase Hosting

    A shallow embedding of [main.go]: the catalog build ([readFiles]), the
    reconciliation and upload loop ([getRequiredUploads], [uploadFiles]) and
    the orchestration ([run]), with the remote service as a deterministic
    function of the history of calls and every call recorded in a trace. *)

From Stdlib Require Import ZArith Strings.Byte Strings.Ascii Strings.String.
From stdpp Require Import gmap strings list.


(** ** Errors

    A Go [error] is modelled by its message; [fmt.Errorf("ctx: %w", err)]
    prepends the context to the message of the wrapped error. *)

Definition error := string.

Inductive result (A : Type) : Type :=
| Ok (a : A)
| Err (e : error).
Arguments Ok {A} a.
Arguments Err {A} e.

Definition wrap {A} (ctx : string) (r : result A) : result A :=
  match r with
  | Ok a => Ok a
  | Err e => Err (ctx +:+ e)
  end.

(** A call that only returns an [error]: [None] is Go's [nil]. *)
Definition check (ctx : string) (r : option error) : result unit :=
  match r with
  | None => Ok tt
  | Some e => Err (ctx +:+ e)
  end.

(** ** encoding/hex *)

Module hex.

Definition hextable : string := "0123456789abcdef".

Definition digit (n : N) : ascii :=
  match String.get (N.to_nat n) hextable with
  | Some c => c
  | None => "0"%char
  end.

(** [dst[j] = hextable[v>>4]; dst[j+1] = hextable[v&0x0f]] *)
Fixpoint EncodeToString (src : list byte) : string :=
  match src with
  | [] => ""
  | v :: rest =>
      String (digit (N.shiftr (Byte.to_N v) 4))
        (String (digit (N.land (Byte.to_N v) 15)) (EncodeToString rest))
  end.

(** The digits [0-9a-f]. *)
Definition lower_hex (c : ascii) : bool :=
  let n := Ascii.N_of_ascii c in
  ((48 <=? n) && (n <=? 57) || (97 <=? n) && (n <=? 102))%N.

(** Reading the encoding back, to say that it is the hexadecimal rendering
    of the bytes. *)
Definition value (c : ascii) : option N :=
  let n := Ascii.N_of_ascii c in
  if ((48 <=? n) && (n <=? 57))%N then Some (n - 48)%N
  else if ((97 <=? n) && (n <=? 102))%N then Some (n - 87)%N
  else None.

Fixpoint decode (s : string) : option (list byte) :=
  match s with
  | EmptyString => Some []
  | String hi (String lo rest) =>
      match value hi, value lo, decode rest with
      | Some a, Some b, Some bs =>
          match Byte.of_N (16 * a + b) with
          | Some v => Some (v :: bs)
          | None => None
          end
      | _, _, _ => None
      end
  | String _ EmptyString => None
  end.

End hex.

(** ** firebase.json *)

Record HeaderKV := { Key : string; Value : string }.

Record HeaderRule := { hSource : string; hHeaders : list HeaderKV }.

Record RedirectRule := { rSource : string; Destination : string; Type_ : Z }.

Record HostingJSON := {
  Site : string;
  Public : string;
  Ignore : list string;
  CleanURLs : bool;
  TrailingSlash : bool;
  Headers : list HeaderRule;
  Redirects : list RedirectRule;
}.

Record FirebaseJSON := { Hosting : HostingJSON }.

(** ** The request and response types of the hosting API that the program
    fills in or reads. *)

Module firebasehosting.

Record Header := { Glob : string; Headers : gmap string string }.

Record Redirect := { rGlob : string; Location : string; StatusCode : Z }.

Record ServingConfig := {
  CleanUrls : bool;
  TrailingSlashBehavior : string;
  cHeaders : list Header;
  cRedirects : list Redirect;
}.

Record PopulateVersionFilesResponse := {
  UploadRequiredHashes : list string;
  UploadUrl : string;
}.

End firebasehosting.

Module http.
Record Response := { StatusCode : Z; Status : string }.
End http.

(** ** The local file system

    [os.DirFS] followed by [fs.WalkDir] sees a tree. A non-directory entry is
    whatever [Open] and reading it to the end give; a directory lists its
    entries in the order [ReadDir] returns them, or fails to be read. *)

Inductive fileState :=
| Readable (content : list byte)
| OpenFails (e : error)
| ReadFails (e : error).

#[warnings="-register-all"]
Inductive node :=
| File (f : fileState)
| Dir (entries : list (string * node))
| BadDir (e : error).

(** [path.Join(name, d1.Name())] for the names the walk builds: the root is
    ["."], which [Join] drops. *)
Definition Join (name child : string) : string :=
  if decide (name = ".") then child else name +:+ "/" +:+ child.

Section WalkDir.
Context {S : Type}.

(** The callback: path, entry ([None] when the root could not be
    stat'ed), the error reported by the walk, and the state it updates. *)
Variable fn : string → option node → option error → S → result S.

(** [fs.walkDir]: the callback first; a directory is then read and its
    entries walked in order; the first error stops the walk. A [ReadDir]
    failure is reported to the callback in a second call. *)
Fixpoint walkDir (name : string) (d : node) (s : S) : result S :=
  match fn name (Some d) None s with
  | Err e => Err e
  | Ok s1 =>
      match d with
      | File _ => Ok s1
      | BadDir e => fn name (Some d) (Some e) s1
      | Dir entries =>
          (fix walkEntries (es : list (string * node)) (s : S) : result S :=
             match es with
             | [] => Ok s
             | (n1, d1) :: es' =>
                 match walkDir (Join name n1) d1 s with
                 | Err e => Err e
                 | Ok s' => walkEntries es' s'
                 end
             end) entries s1
      end
  end.

(** [fs.WalkDir(fsys, root, fn)]: [Stat] of the root, whose failure goes
    to the callback. *)
Definition WalkDir (root : string) (r : result node) (s : S) : result S :=
  match r with
  | Err e => fn root None (Some e) s
  | Ok d => walkDir root d s
  end.

End WalkDir.

(** ** The remote service and the trace

    Every call that leaves the machine is recorded with its arguments and
    its answer. The service answers as a function of the calls made so far
    and of the arguments, so that it may answer the same request differently
    the second time. *)

Inductive event :=
| VersionsCreate (parent : string) (config : firebasehosting.ServingConfig)
    (r : result string)
| PopulateFiles (version : string) (files : gmap string string)
    (r : result firebasehosting.PopulateVersionFilesResponse)
| Post (endpoint : string) (body : option (list byte))
    (r : result http.Response)
| VersionsPatch (version status : string) (r : result string)
| ReleasesCreate (site version : string) (r : result unit).

Record Remote := {
  versions_create :
    list event → string → firebasehosting.ServingConfig → result string;
  populate_files :
    list event → string → gmap string string →
    result firebasehosting.PopulateVersionFilesResponse;
  do_post : list event → string → option (list byte) → result http.Response;
  versions_patch : list event → string → string → result string;
  releases_create : list event → string → string → result unit;
}.

(** What the machine itself provides. *)
Record Local := {
  ReadFile : string → result (list byte);   (* os.ReadFile *)
  DefaultClient : option error;             (* google.DefaultClient *)
  NewService : option error;                (* firebasehosting.NewService *)
  DirFS : string → result node;             (* os.DirFS, then Stat of "." *)
}.

(** A computation reads and extends the trace and returns a value or an
    error; the trace survives an error. *)
Definition M (A : Type) : Type := list event → result A * list event.

Definition ret {A} (a : A) : M A := λ tr, (Ok a, tr).

Definition fail {A} (e : error) : M A := λ tr, (Err e, tr).

Definition bind {A B} (m : M A) (k : A → M B) : M B :=
  λ tr, match m tr with
        | (Ok a, tr') => k a tr'
        | (Err e, tr') => (Err e, tr')
        end.

Definition lift {A} (r : result A) : M A := λ tr, (r, tr).

(** A remote call: ask the service, record the answer, and wrap its error
    in the caller's context. *)
Definition call {A} (ctx : string) (ask : list event → result A)
    (record : result A → event) : M A :=
  λ tr, let r := ask tr in (wrap ctx r, tr ++ [record r]).

Notation "x <- m ;; k" := (bind m (λ x, k))
  (at level 100, m at next level, right associativity).

(** ** The program *)

(** The values of [hashToGzip] are readers over the files' buffers: sending
    a request reads its body to the end, which leaves the buffer of that
    hash empty. *)
Definition drain (h : string) (store : gmap string (list byte))
    : gmap string (list byte) :=
  alter (λ _, []) h store.

Section Program.

(** Library functions the program calls: [json.Unmarshal] into a
    [FirebaseJSON]; the bytes a [gzip.Writer] has written into its buffer
    once closed; [sha256.Sum256]; and [http.NewRequestWithContext], which
    for the method POST and a live context fails only on an endpoint that
    does not parse. *)
Variable Unmarshal : list byte → result FirebaseJSON.
Variable gzip : list byte → list byte.
Variable Sum256 : list byte → list byte.
Variable NewRequest : string → option error.

Definition readConfig (loc : Local) (fbConfFile : string)
    : result FirebaseJSON :=
  match ReadFile loc fbConfFile with
  | Err e => Err ("read " +:+ fbConfFile +:+ ": " +:+ e)
  | Ok b =>
      match Unmarshal b with
      | Err e => Err ("unmarshal " +:+ fbConfFile +:+ ": " +:+ e)
      | Ok fbConf => Ok fbConf
      end
  end.

Definition servingConf (fbConf : FirebaseJSON)
    : firebasehosting.ServingConfig :=
  let h := Hosting fbConf in
  {| firebasehosting.CleanUrls := CleanURLs h;
     firebasehosting.TrailingSlashBehavior :=
       if TrailingSlash h then "ADD" else "";
     firebasehosting.cHeaders :=
       map (λ header,
              {| firebasehosting.Glob := hSource header;
                 firebasehosting.Headers :=
                   foldl (λ hdrs hdr, <[Key hdr := Value hdr]> hdrs) ∅
                     (hHeaders header) |})
           (Headers h);
     firebasehosting.cRedirects :=
       map (λ redirect,
              {| firebasehosting.rGlob := rSource redirect;
                 firebasehosting.Location := Destination redirect;
                 firebasehosting.StatusCode := Type_ redirect |})
           (Redirects h) |}.

Definition createVersion (svc : Remote) (fbConf : FirebaseJSON) : M string :=
  let siteID := "sites/" +:+ Site (Hosting fbConf) in
  call ("create new version for " +:+ siteID +:+ ": ")
    (λ tr, versions_create svc tr siteID (servingConf fbConf))
    (VersionsCreate siteID (servingConf fbConf)).

(** The content address of a file: the hexadecimal SHA-256 of the closed
    gzip stream. *)
Definition contentHash (buf : list byte) : string :=
  hex.EncodeToString (Sum256 buf).

(** The two maps [readFiles] fills: [pathToHash] and [hashToGzip]. A
    [hashToGzip] value is the unread part of the file's buffer. *)
Definition catalog : Type := gmap string string * gmap string (list byte).

(** The callback [readFiles] passes to the walk. The ignore patterns of
    the configuration are not consulted (the source has a TODO in their
    place). Writing into a [bytes.Buffer] cannot fail, so neither can
    closing the gzip writer: that branch of the source is not reached. *)
Definition visit (p : string) (d : option node) (err : option error)
    (st : catalog) : result catalog :=
  match err with
  | Some e => Err e
  | None =>
      match d with
      | Some (File (OpenFails e)) => Err ("open " +:+ p +:+ ": " +:+ e)
      | Some (File (ReadFails e)) => Err ("read from " +:+ p +:+ ": " +:+ e)
      | Some (File (Readable content)) =>
          let buf := gzip content in
          let hash := contentHash buf in
          Ok (<["/" +:+ p := hash]> st.1, <[hash := buf]> st.2)
      | _ => Ok st   (* [d.IsDir()] *)
      end
  end.

Definition readFiles (loc : Local) (fbConf : FirebaseJSON) : result catalog :=
  let public := Public (Hosting fbConf) in
  match WalkDir visit "." (DirFS loc public) (∅, ∅) with
  | Err e => Err ("walk " +:+ public +:+ ": " +:+ e)
  | Ok st => Ok st
  end.

Definition getRequiredUploads (svc : Remote) (version : string)
    (pathToHash : gmap string string)
    : M firebasehosting.PopulateVersionFilesResponse :=
  call ("get required uploads for " +:+ version +:+ ": ")
    (λ tr, populate_files svc tr version pathToHash)
    (PopulateFiles version pathToHash).

(** The upload loop. The request body is the reader found in the map,
    [None] (a nil reader) for a hash that is not a key; a request that was
    answered 200 has read its buffer to the end. *)
Fixpoint uploadLoop (svc : Remote) (uploadURL : string)
    (toUpload : list string) (hashToGzip : gmap string (list byte))
    : M unit :=
  match toUpload with
  | [] => ret tt
  | uploadHash :: rest =>
      let endpoint := uploadURL +:+ "/" +:+ uploadHash in
      let body := hashToGzip !! uploadHash in
      _ <- lift (check ("create request for " +:+ uploadHash +:+ ": ")
                   (NewRequest endpoint)) ;;
      res <- call ("upload for " +:+ uploadHash +:+ ": ")
               (λ tr, do_post svc tr endpoint body) (Post endpoint body) ;;
      if decide (http.StatusCode res ≠ 200%Z) then
        fail ("unexpected response for upload " +:+ uploadHash +:+ ": "
              +:+ http.Status res)
      else
        uploadLoop svc uploadURL rest (drain uploadHash hashToGzip)
  end.

Definition uploadFiles (svc : Remote) (version : string)
    (toUpload : list string) (uploadURL : string)
    (hashToGzip : gmap string (list byte)) : M unit :=
  _ <- uploadLoop svc uploadURL toUpload hashToGzip ;;
  patchResponse <- call ("finalize " +:+ version +:+ ": ")
                     (λ tr, versions_patch svc tr version "FINALIZED")
                     (VersionsPatch version "FINALIZED") ;;
  if decide (patchResponse ≠ "FINALIZED") then
    fail ("unexpected finalization status: " +:+ patchResponse)
  else ret tt.

Definition release (svc : Remote) (site version : string) : M unit :=
  call ("release " +:+ version +:+ ": ")
    (λ tr, releases_create svc tr site version)
    (ReleasesCreate site version).

Definition run (loc : Local) (svc : Remote) : M unit :=
  let fbConfFile := "firebase.json" in
  fbConf <- lift (readConfig loc fbConfFile) ;;
  _ <- lift (check "create http client: " (DefaultClient loc)) ;;
  _ <- lift (check "create firebase client: " (NewService loc)) ;;
  version <- createVersion svc fbConf ;;
  files <- lift (readFiles loc fbConf) ;;
  required <- getRequiredUploads svc version files.1 ;;
  _ <- uploadFiles svc version
         (firebasehosting.UploadRequiredHashes required)
         (firebasehosting.UploadUrl required) files.2 ;;
  release svc ("sites/" +:+ Site (Hosting fbConf)) version.

End Program.

(** ** Vocabulary for the properties *)

(** A fold that stops at the first error. *)
Fixpoint foldM {S X} (f : X → S → result S) (l : list X) (s : S) : result S :=
  match l with
  | [] => Ok s
  | x :: l' =>
      match f x s with
      | Err e => Err e
      | Ok s' => foldM f l' s'
      end
  end.

(** The entries the walk reaches, in the order it reaches them. *)
Fixpoint calls (name : string) (d : node) : list (string * node) :=
  (name, d) ::
  match d with
  | Dir entries =>
      (fix below (es : list (string * node)) : list (string * node) :=
         match es with
         | [] => []
         | (n1, d1) :: es' => calls (Join name n1) d1 ++ below es'
         end) entries
  | _ => []
  end.

(** What the walk does at one entry: the callback, and for a directory that
    cannot be read the callback again with the error. *)
Definition step {S} (fn : string → option node → option error → S → result S)
    (x : string * node) (s : S) : result S :=
  match fn x.1 (Some x.2) None s with
  | Err e => Err e
  | Ok s1 =>
      match x.2 with
      | BadDir e => fn x.1 (Some x.2) (Some e) s1
      | _ => Ok s1
      end
  end.

(** The non-directory entries among those, and the non-directory entries
    under a root, with their paths relative to it. *)
Definition filesOf (l : list (string * node)) : list (string * fileState) :=
  omap (λ x, match x.2 with File f => Some (x.1, f) | _ => None end) l.

Definition regularFiles (root : result node) : list (string * fileState) :=
  match root with
  | Err _ => []
  | Ok d => filesOf (calls "." d)
  end.

(** What a readable file adds to the catalog. *)
Definition record (gzip Sum256 : list byte → list byte) (st : catalog)
    (x : string * fileState) : catalog :=
  match x.2 with
  | Readable content =>
      let buf := gzip content in
      let hash := contentHash Sum256 buf in
      (<["/" +:+ x.1 := hash]> st.1, <[hash := buf]> st.2)
  | _ => st
  end.

Definition readable (x : string * fileState) : Prop :=
  ∃ content, x.2 = Readable content.

(** Every hash of the manifest is a key of the content store. *)
Definition covered (st : catalog) : Prop :=
  ∀ p h, st.1 !! p = Some h → is_Some (st.2 !! h).

(** The events of a stretch of the loop in which the hashes [hs] were
    answered by [rs]. *)
Fixpoint posts (url : string) (store : gmap string (list byte))
    (hs : list string) (rs : list http.Response) : list event :=
  match hs, rs with
  | h :: hs', r :: rs' =>
      Post (url +:+ "/" +:+ h) (store !! h) (Ok r) :: posts url (drain h store) hs' rs'
  | _, _ => []
  end.

(** The bodies and answers of the POSTs made to one endpoint, in order. *)
Fixpoint postsTo (endpoint : string) (tr : list event)
    : list (option (list byte) * result http.Response) :=
  match tr with
  | [] => []
  | Post ep body r :: tr' =>
      if decide (ep = endpoint) then (body, r) :: postsTo endpoint tr'
      else postsTo endpoint tr'
  | _ :: tr' => postsTo endpoint tr'
  end.

Definition isPost (ev : event) : Prop :=
  match ev with Post _ _ _ => True | _ => False end.

Definition accepted (r : http.Response) : Prop := http.StatusCode r = 200%Z.

(** How the loop stops at a hash: the request cannot be built, the
    transport fails, or the answer is not 200. *)
Inductive stopped (NewRequest : string → option error) (url h : string)
    (body : option (list byte)) : error → list event → Prop :=
| stopped_request e0 :
    NewRequest (url +:+ "/" +:+ h) = Some e0 →
    stopped NewRequest url h body
      (("create request for " +:+ h +:+ ": ") +:+ e0) []
| stopped_transport e0 :
    NewRequest (url +:+ "/" +:+ h) = None →
    stopped NewRequest url h body (("upload for " +:+ h +:+ ": ") +:+ e0)
      [Post (url +:+ "/" +:+ h) body (Err e0)]
| stopped_status res :
    NewRequest (url +:+ "/" +:+ h) = None →
    ¬ accepted res →
    stopped NewRequest url h body
      ("unexpected response for upload " +:+ h +:+ ": " +:+ http.Status res)
      [Post (url +:+ "/" +:+ h) body (Ok res)].

(** How [uploadFiles] answers the status the service returned for the
    finalizing patch. *)
Definition finalized (version : string) (a : result string) : result unit :=
  match a with
  | Err e0 => Err (("finalize " +:+ version +:+ ": ") +:+ e0)
  | Ok status =>
      if decide (status ≠ "FINALIZED") then
        Err ("unexpected finalization status: " +:+ status)
      else Ok tt
  end.

(** The two ways [uploadFiles] ends: stopped inside the loop, or every hash
    posted and the patch sent. *)
Inductive uploaded (NewRequest : string → option error) (version url : string)
    (hs : list string) (store : gmap string (list byte))
    : result unit → list event → Prop :=
| uploaded_stop pre h post rs e last :
    hs = pre ++ h :: post →
    length rs = length pre →
    Forall accepted rs →
    stopped NewRequest url h (foldl (flip drain) store pre !! h) e last →
    uploaded NewRequest version url hs store (Err e) (posts url store pre rs ++ last)
| uploaded_all rs a :
    length rs = length hs →
    Forall accepted rs →
    Forall (λ h, NewRequest (url +:+ "/" +:+ h) = None) hs →
    uploaded NewRequest version url hs store (finalized version a)
      (posts url store hs rs ++ [VersionsPatch version "FINALIZED" a]).

Definition isPatch (ev : event) : Prop :=
  match ev with VersionsPatch _ _ _ => True | _ => False end.

Definition isRelease (ev : event) : Prop :=
  match ev with ReleasesCreate _ _ _ => True | _ => False end.


(** ** The outcomes of a run *)

Section Outcome.
Variable Unmarshal : list byte → result FirebaseJSON.
Variable gzip : list byte → list byte.
Variable Sum256 : list byte → list byte.
Variable NewRequest : string → option error.
Variable loc : Local.
Variable svc : Remote.

Definition siteOf (fbConf : FirebaseJSON) : string :=
  "sites/" +:+ Site (Hosting fbConf).

(** The local preparation before the first remote call went through. *)
Definition prepared (fbConf : FirebaseJSON) : Prop :=
  readConfig Unmarshal loc "firebase.json" = Ok fbConf ∧
  DefaultClient loc = None ∧ NewService loc = None.

Definition created (fbConf : FirebaseJSON) (version : string) : event :=
  VersionsCreate (siteOf fbConf) (servingConf fbConf) (Ok version).

Definition populated (version : string) (files : catalog)
    (required : firebasehosting.PopulateVersionFilesResponse) : event :=
  PopulateFiles version files.1 (Ok required).

(** Every way a run ends, with the calls it has made. *)
Inductive ran : result unit → list event → Prop :=
| ran_config e :
    readConfig Unmarshal loc "firebase.json" = Err e →
    ran (Err e) []
| ran_http_client fbConf e :
    readConfig Unmarshal loc "firebase.json" = Ok fbConf →
    DefaultClient loc = Some e →
    ran (Err ("create http client: " +:+ e)) []
| ran_service fbConf e :
    readConfig Unmarshal loc "firebase.json" = Ok fbConf →
    DefaultClient loc = None →
    NewService loc = Some e →
    ran (Err ("create firebase client: " +:+ e)) []
| ran_create fbConf e :
    prepared fbConf →
    versions_create svc [] (siteOf fbConf) (servingConf fbConf) = Err e →
    ran (Err (("create new version for " +:+ siteOf fbConf +:+ ": ") +:+ e))
      [VersionsCreate (siteOf fbConf) (servingConf fbConf) (Err e)]
| ran_walk fbConf version e :
    prepared fbConf →
    versions_create svc [] (siteOf fbConf) (servingConf fbConf) = Ok version →
    readFiles gzip Sum256 loc fbConf = Err e →
    ran (Err e) [created fbConf version]
| ran_populate fbConf version files e :
    prepared fbConf →
    versions_create svc [] (siteOf fbConf) (servingConf fbConf) = Ok version →
    readFiles gzip Sum256 loc fbConf = Ok files →
    populate_files svc [created fbConf version] version files.1 = Err e →
    ran (Err (("get required uploads for " +:+ version +:+ ": ") +:+ e))
      [created fbConf version; PopulateFiles version files.1 (Err e)]
| ran_upload fbConf version files required e evs :
    prepared fbConf →
    versions_create svc [] (siteOf fbConf) (servingConf fbConf) = Ok version →
    readFiles gzip Sum256 loc fbConf = Ok files →
    populate_files svc [created fbConf version] version files.1 = Ok required →
    uploaded NewRequest version (firebasehosting.UploadUrl required)
      (firebasehosting.UploadRequiredHashes required) files.2 (Err e) evs →
    ran (Err e)
      ([created fbConf version; populated version files required] ++ evs)
| ran_release fbConf version files required evs a :
    prepared fbConf →
    versions_create svc [] (siteOf fbConf) (servingConf fbConf) = Ok version →
    readFiles gzip Sum256 loc fbConf = Ok files →
    populate_files svc [created fbConf version] version files.1 = Ok required →
    uploaded NewRequest version (firebasehosting.UploadUrl required)
      (firebasehosting.UploadRequiredHashes required) files.2 (Ok tt) evs →
    ran (wrap ("release " +:+ version +:+ ": ") a)
      ([created fbConf version; populated version files required] ++ evs
       ++ [ReleasesCreate (siteOf fbConf) version a]).

End Outcome.

(** The local steps of a run and their failures: reading the configuration,
    and the catalog build, which the run reaches once the version has been
    created. *)
Inductive localStep := ConfigStep | CatalogStep.

Inductive localError (Unmarshal : list byte → result FirebaseJSON)
    (gzip Sum256 : list byte → list byte) (loc : Local) (svc : Remote)
    : localStep → error → Prop :=
| config_error e :
    readConfig Unmarshal loc "firebase.json" = Err e →
    localError Unmarshal gzip Sum256 loc svc ConfigStep e
| catalog_error fbConf version e :
    prepared Unmarshal loc fbConf →
    versions_create svc [] (siteOf fbConf) (servingConf fbConf) = Ok version →
    readFiles gzip Sum256 loc fbConf = Err e →
    localError Unmarshal gzip Sum256 loc svc CatalogStep e.

(** ** A small site, for examples

  The library functions are fixed to stand-ins here; no example depends on
  which functions they are. *)

Module Demo.

Definition bytes (s : string) : list byte := String.list_byte_of_string s.

Definition conf (ignore : list string) : FirebaseJSON :=
  {| Hosting := {| Site := "demo"; Public := "public"; Ignore := ignore;
                   CleanURLs := false; TrailingSlash := false;
                   Headers := []; Redirects := [] |} |}.

Definition Unmarshal (ignore : list string) (b : list byte)
    : result FirebaseJSON :=
  Ok (conf ignore).

Definition gzip (b : list byte) : list byte := b.

Definition Sum256 (b : list byte) : list byte := b.

Definition NewRequest (endpoint : string) : option error := None.

Definition loc (root : result node) : Local :=
  {| ReadFile := λ _, Ok [];
     DefaultClient := None;
     NewService := None;
     DirFS := λ _, root |}.

(** A service that asks for the hashes [required], answers every upload
    with [answer] and every patch with [status]. *)
Definition svc (required : list string) (answer : http.Response)
    (status : string) : Remote :=
  {| versions_create := λ _ _ _, Ok "sites/demo/versions/1";
     populate_files := λ _ _ _,
       Ok {| firebasehosting.UploadRequiredHashes := required;
             firebasehosting.UploadUrl := "https://upload.test/files" |};
     do_post := λ _ _ _, Ok answer;
     versions_patch := λ _ _ _, Ok status;
     releases_create := λ _ _ _, Ok tt |}.

Definition ok200 : http.Response :=
  {| http.StatusCode := 200; http.Status := "200 OK" |}.

Definition err500 : http.Response :=
  {| http.StatusCode := 500; http.Status := "500 Internal Server Error" |}.

Definition index : list byte := bytes "<h1>Hi</h1>".
Definition style : list byte := bytes "body{}".

Definition site : node :=
  Dir [("copy.html", File (Readable index));
       ("index.html", File (Readable index));
       ("style.css", File (Readable style))].

Definition H1 : string := contentHash Sum256 (gzip index).
Definition H2 : string := contentHash Sum256 (gzip style).

Definition manifest : gmap string string :=
  <["/style.css" := H2]> (<["/index.html" := H1]> (<["/copy.html" := H1]> ∅)).

Definition store : gmap string (list byte) :=
  <[H2 := style]> (<[H1 := index]> (<[H1 := index]> ∅)).

End Demo.

(** ** The entry point *)

(** What the process leaves behind: its exit status and what it wrote to
    the standard error stream. *)
Record exit := { code : Z; stderr : string }.

Definition newline : string := String (ascii_of_nat 10) EmptyString.

Section Main.

(** [flag.Parse] on the command line: [Some] when it ends the process
    itself (an undefined flag, or a request for help), with the status and
    the text it leaves; [None] when it returns. The program defines no
    flag. *)
Variable flagParse : list string → option exit.
Variable Unmarshal : list byte → result FirebaseJSON.
Variable gzip : list byte → list byte.
Variable Sum256 : list byte → list byte.
Variable NewRequest : string → option error.

Definition main (args : list string) (loc : Local) (svc : Remote)
    : exit * list event :=
  match flagParse args with
  | Some ex => (ex, [])
  | None =>
      match run Unmarshal gzip Sum256 NewRequest loc svc [] with
      | (Err err, tr) => ({| code := 1; stderr := err +:+ newline |}, tr)
      | (Ok _, tr) => ({| code := 0; stderr := "" |}, tr)
      end
  end.

End Main.

(** ** Vocabulary for further properties *)

(** The value a list of header entries gives a key: that of its last entry
    with the key. *)
Definition headerValue (k : string) (kvs : list HeaderKV) : option string :=
  Value <$> last (filter (λ hdr, Key hdr = k) kvs).

(** An entry the callback of [readFiles] gets past, and the error it
    returns at one it does not. *)
Definition fine (x : string * node) : Prop :=
  match x.2 with
  | File (Readable _) | Dir _ => True
  | _ => False
  end.

Definition failure (x : string * node) : option error :=
  match x.2 with
  | File (OpenFails e) => Some ("open " +:+ x.1 +:+ ": " +:+ e)
  | File (ReadFails e) => Some ("read from " +:+ x.1 +:+ ": " +:+ e)
  | BadDir e => Some e
  | _ => None
  end.

(** The place of a call in the protocol. *)
Definition phase (ev : event) : nat :=
  match ev with
  | VersionsCreate _ _ _ => 0
  | PopulateFiles _ _ _ => 1
  | Post _ _ _ => 2
  | VersionsPatch _ _ _ => 3
  | ReleasesCreate _ _ _ => 4
  end.

(** The endpoints posted to, in order. *)
Definition endpoints (tr : list event) : list string :=
  omap (λ ev, match ev with Post ep _ _ => Some ep | _ => None end) tr.

(** More services for examples. *)
Module Faulty.

(** The connection is reset on every upload after the first. *)
Definition resets : Remote :=
  {| versions_create := λ _ _ _, Ok "sites/demo/versions/1";
     populate_files := λ _ _ _,
       Ok {| firebasehosting.UploadRequiredHashes := [Demo.H1; Demo.H2];
             firebasehosting.UploadUrl := "https://upload.test/files" |};
     do_post := λ tr _ _,
       if decide (Exists (λ ev, phase ev = 2) tr) then Err "connection reset"
       else Ok Demo.ok200;
     versions_patch := λ _ _ _, Ok "FINALIZED";
     releases_create := λ _ _ _, Ok tt |}.

(** Everything goes through but the release. *)
Definition unreleased : Remote :=
  {| versions_create := λ _ _ _, Ok "sites/demo/versions/1";
     populate_files := λ _ _ _,
       Ok {| firebasehosting.UploadRequiredHashes := [Demo.H2];
             firebasehosting.UploadUrl := "https://upload.test/files" |};
     do_post := λ _ _ _, Ok Demo.ok200;
     versions_patch := λ _ _ _, Ok "FINALIZED";
     releases_create := λ _ _ _, Err "permission denied" |}.

End Faulty.

(** * Lemmas *)

(** ** The walk *)

Lemma node_nested_ind (P : node → Prop) :
  (∀ f, P (File f)) →
  (∀ e, P (BadDir e)) →
  (∀ es, Forall (λ x, P x.2) es → P (Dir es)) →
  ∀ d, P d.
Proof.
  intros HF HB HD. fix IH 1. intros [f|es|e]; [apply HF| |apply HB].
  apply HD. induction es as [|[n d] es IHes]; constructor; [apply IH|apply IHes].
Qed.

Lemma foldM_app {S X} (f : X → S → result S) l1 l2 s :
  foldM f (l1 ++ l2) s =
  match foldM f l1 s with
  | Err e => Err e
  | Ok s' => foldM f l2 s'
  end.
Proof.
  revert s. induction l1 as [|x l1 IH]; intros s; simpl; [done|].
  destruct (f x s); [apply IH|done].
Qed.

Lemma walkDir_calls {S} (fn : string → option node → option error → S → result S)
    name d s :
  walkDir fn name d s = foldM (step fn) (calls name d) s.
Proof.
  revert name s. induction d as [f|e|es IH] using node_nested_ind; intros name s.
  - simpl. unfold step; simpl. by destruct (fn name _ None s).
  - simpl. unfold step; simpl. destruct (fn name _ None s) as [s1|]; [|done].
    by destruct (fn name _ (Some e) s1).
  - cbn [walkDir calls foldM]. unfold step at 1. cbn [fst snd].
    destruct (fn name (Some (Dir es)) None s) as [s1|]; [|done].
    clear s. revert s1. induction IH as [|[n1 d1] es Hd _ IHes]; intros s1; [done|].
    rewrite foldM_app. cbn [snd] in Hd. rewrite Hd.
    destruct (foldM (step fn) (calls (Join name n1) d1) s1); [apply IHes|done].
Qed.

(** ** The catalog build *)

Lemma EncodeToString_digits v :
  hex.lower_hex (hex.digit (N.shiftr (Byte.to_N v) 4)) = true ∧
  hex.lower_hex (hex.digit (N.land (Byte.to_N v) 15)) = true.
Proof. destruct v; split; vm_compute; reflexivity. Qed.

Lemma EncodeToString_lower_hex src :
  forallb hex.lower_hex (list_ascii_of_string (hex.EncodeToString src)) = true.
Proof.
  induction src as [|v src IH]; [done|].
  destruct (EncodeToString_digits v) as [Hhi Hlo].
  cbn [hex.EncodeToString list_ascii_of_string forallb].
  by rewrite Hhi, Hlo, IH.
Qed.

Lemma decode_digits v :
  match hex.value (hex.digit (N.shiftr (Byte.to_N v) 4)),
        hex.value (hex.digit (N.land (Byte.to_N v) 15)) with
  | Some a, Some b => Byte.of_N (16 * a + b) = Some v
  | _, _ => False
  end.
Proof. destruct v; vm_compute; reflexivity. Qed.

Lemma decode_EncodeToString src : hex.decode (hex.EncodeToString src) = Some src.
Proof.
  induction src as [|v src IH]; [done|].
  pose proof (decode_digits v) as Hv.
  cbn [hex.EncodeToString hex.decode]. rewrite IH.
  destruct (hex.value _) as [a|]; [|done].
  destruct (hex.value _) as [b|]; [|done].
  by rewrite Hv.
Qed.

Lemma EncodeToString_length src :
  String.length (hex.EncodeToString src) = 2 * length src.
Proof. induction src as [|v src IH]; simpl; [done|]. rewrite IH. lia. Qed.

Section Catalog.
Variable gzip : list byte → list byte.
Variable Sum256 : list byte → list byte.

Lemma foldM_visit_ok l st st' :
  foldM (step (visit gzip Sum256)) l st = Ok st' →
  st' = foldl (record gzip Sum256) st (filesOf l) ∧ Forall readable (filesOf l).
Proof.
  revert st. induction l as [|[p d] l IH]; intros st; simpl.
  - intros [= <-]. by split.
  - unfold step at 1. cbn [fst snd visit].
    destruct d as [[content|e|e]|es|e]; try discriminate.
    + intros H. apply IH in H as [-> Hall]. split; [done|].
      constructor; [by exists content|done].
    + apply IH.
Qed.

Lemma readFiles_ok loc fbConf st :
  readFiles gzip Sum256 loc fbConf = Ok st →
  let files := regularFiles (DirFS loc (Public (Hosting fbConf))) in
  st = foldl (record gzip Sum256) (∅, ∅) files ∧ Forall readable files.
Proof.
  unfold readFiles, WalkDir, regularFiles.
  destruct (DirFS loc _) as [d|e]; [|discriminate].
  rewrite walkDir_calls.
  destruct (foldM _ _ _) as [st0|] eqn:Hwalk; [|discriminate].
  intros [= <-]. by apply foldM_visit_ok.
Qed.

(** A failed walk names the root it walked. *)
Lemma readFiles_err loc fbConf e :
  readFiles gzip Sum256 loc fbConf = Err e →
  ∃ e', e = "walk " +:+ Public (Hosting fbConf) +:+ ": " +:+ e'.
Proof.
  unfold readFiles. destruct (WalkDir _ _ _ _) as [|e']; [discriminate|].
  intros [= <-]. by exists e'.
Qed.

Lemma foldl_record_other l st p :
  p ∉ l.*1 →
  (foldl (record gzip Sum256) st l).1 !! ("/" +:+ p) = st.1 !! ("/" +:+ p).
Proof.
  revert st. induction l as [|[q f] l IH]; intros st Hp; [done|].
  apply not_elem_of_cons in Hp as [Hne Hp]. cbn [foldl]. rewrite IH by done.
  unfold record; cbn [fst snd]. destruct f; [|done..].
  cbn [fst]. apply lookup_insert_ne. intros Heq. by simplify_eq.
Qed.

Lemma foldl_record_lookup l st p content :
  NoDup l.*1 → (p, Readable content) ∈ l →
  (foldl (record gzip Sum256) st l).1 !! ("/" +:+ p) =
  Some (contentHash Sum256 (gzip content)).
Proof.
  revert st. induction l as [|[q f] l IH]; intros st Hnd Hin.
  - by apply elem_of_nil in Hin.
  - apply NoDup_cons in Hnd as [Hq Hnd].
    apply elem_of_cons in Hin as [[= <- <-]|Hin].
    + cbn [foldl]. rewrite foldl_record_other by done.
      unfold record; cbn [fst snd]. apply lookup_insert_eq.
    + cbn [foldl]. by apply IH.
Qed.

Lemma record_covered st x : covered st → covered (record gzip Sum256 st x).
Proof.
  intros Hst. unfold record. destruct x as [q [content|e|e]]; cbn [fst snd]; try done.
  intros p h. cbn [fst snd]. rewrite lookup_insert. case_decide as Hp.
  - intros [= <-]. rewrite lookup_insert_eq. by eexists.
  - intros Hh. rewrite lookup_insert. case_decide; [by eexists|by eapply Hst].
Qed.

Lemma foldl_record_covered l st :
  covered st → covered (foldl (record gzip Sum256) st l).
Proof.
  revert st. induction l as [|x l IH]; intros st Hst; [done|].
  cbn [foldl]. by apply IH, record_covered.
Qed.

End Catalog.

(** The walk of [readFiles], entry by entry. *)

Section CatalogWalk.
Variable gzip : list byte → list byte.
Variable Sum256 : list byte → list byte.

Lemma step_visit_fine x st :
  fine x → step (visit gzip Sum256) x st = Ok (foldl (record gzip Sum256) st (filesOf [x])).
Proof. destruct x as [p [[c|e|e]|es|e]]; by intros []. Qed.

Lemma step_visit_failure x st e :
  failure x = Some e → step (visit gzip Sum256) x st = Err e.
Proof. destruct x as [p [[c|e'|e']|es|e']]; by intros [= <-]. Qed.

Lemma fine_or_failure x : fine x ∨ is_Some (failure x).
Proof. destruct x as [p [[c|e|e]|es|e]]; (by left) || (right; by eexists). Qed.

Lemma filesOf_app l1 l2 : filesOf (l1 ++ l2) = filesOf l1 ++ filesOf l2.
Proof. apply omap_app. Qed.

Lemma foldM_visit_fine l st :
  Forall fine l →
  foldM (step (visit gzip Sum256)) l st = Ok (foldl (record gzip Sum256) st (filesOf l)).
Proof.
  intros Hl. revert st. induction Hl as [|x l Hx _ IH]; intros st; [done|].
  cbn [foldM]. rewrite step_visit_fine by done.
  rewrite IH. change (x :: l) with ([x] ++ l). by rewrite filesOf_app, foldl_app.
Qed.

Lemma foldM_visit_failure pre x post st e :
  Forall fine pre → failure x = Some e →
  foldM (step (visit gzip Sum256)) (pre ++ x :: post) st = Err e.
Proof.
  intros Hpre Hx. rewrite foldM_app, foldM_visit_fine by done.
  cbn [foldM]. by rewrite (step_visit_failure _ _ e).
Qed.

Lemma foldM_visit_ok_fine l st st' :
  foldM (step (visit gzip Sum256)) l st = Ok st' → Forall fine l.
Proof.
  revert st. induction l as [|x l IH]; intros st; [by constructor|].
  cbn [foldM]. destruct (fine_or_failure x) as [Hx|[e Hx]].
  - rewrite step_visit_fine by done. intros H. constructor; [done|by eapply IH].
  - by rewrite (step_visit_failure _ _ e).
Qed.

(** Where an entry of the manifest comes from. *)
Lemma foldl_record_lookup_Some l st k h :
  (foldl (record gzip Sum256) st l).1 !! k = Some h →
  st.1 !! k = Some h ∨
  ∃ p content, (p, Readable content) ∈ l ∧ k = "/" +:+ p ∧
               h = contentHash Sum256 (gzip content).
Proof.
  revert st. induction l as [|[q f] l IH]; intros st; [by left|].
  cbn [foldl]. intros [Hk|(p & c & Hin & -> & ->)]%IH.
  - unfold record in Hk; cbn [fst snd] in Hk. destruct f as [content|e|e].
    + cbn [fst] in Hk. rewrite lookup_insert in Hk. case_decide as Hq.
      * injection Hk as <-. subst k. right. exists q, content. split; [by left|done].
      * by left.
    + by left.
    + by left.
  - right. exists p, c. split; [by right|done].
Qed.

End CatalogWalk.

(** ** The upload loop *)

Section Upload.
Variable NewRequest : string → option error.
Variable svc : Remote.
Variable url : string.

Lemma posts_length store hs rs :
  length rs = length hs → length (posts url store hs rs) = length hs.
Proof.
  revert store rs. induction hs as [|h hs IH]; intros store [|r rs] [=]; [done|].
  simpl. f_equal. by apply IH.
Qed.

(** The loop returns normally only after every hash was posted and
    answered 200. *)
Lemma uploadLoop_ok hs store tr tr' :
  uploadLoop NewRequest svc url hs store tr = (Ok tt, tr') →
  ∃ rs, length rs = length hs ∧ Forall accepted rs ∧
        Forall (λ h, NewRequest (url +:+ "/" +:+ h) = None) hs ∧
        tr' = tr ++ posts url store hs rs.
Proof.
  revert store tr. induction hs as [|h hs IH]; intros store tr.
  - intros [= <-]. exists []. by rewrite app_nil_r.
  - cbn [uploadLoop]. unfold bind, lift, call, check, fail.
    destruct (NewRequest _) eqn:Hreq; [discriminate|].
    destruct (do_post svc tr _ _) as [res|e0] eqn:Hpost; cbn [wrap]; [|discriminate].
    case_decide as Hcode; [discriminate|].
    intros (rs & Hlen & Hall & Hreqs & ->)%IH.
    exists (res :: rs). split_and!.
    + simpl. by rewrite Hlen.
    + constructor; [|done]. unfold accepted. by destruct (decide (http.StatusCode res = 200%Z)).
    + by constructor.
    + by rewrite <-app_assoc.
Qed.

(** The loop fails at the first hash that cannot be sent or is not
    answered 200, after the hashes before it were posted and answered
    200. *)
Lemma uploadLoop_err hs store tr e tr' :
  uploadLoop NewRequest svc url hs store tr = (Err e, tr') →
  ∃ pre h post rs last,
    hs = pre ++ h :: post ∧ length rs = length pre ∧ Forall accepted rs ∧
    stopped NewRequest url h (foldl (flip drain) store pre !! h) e last ∧
    tr' = tr ++ posts url store pre rs ++ last.
Proof.
  revert store tr. induction hs as [|h hs IH]; intros store tr; [discriminate|].
  cbn [uploadLoop]. unfold bind, lift, call, check, fail.
  destruct (NewRequest _) as [e0|] eqn:Hreq.
  { intros [= <- <-]. exists [], h, hs, [], []. split_and!; try done.
    - by apply stopped_request.
    - by rewrite app_nil_r. }
  destruct (do_post svc tr _ _) as [res|e0] eqn:Hpost; cbn [wrap].
  2:{ intros [= <- <-]. exists [], h, hs, [], [Post (url +:+ "/" +:+ h) (store !! h) (Err e0)].
      split_and!; try done. by apply stopped_transport. }
  case_decide as Hcode.
  { intros [= <- <-]. exists [], h, hs, [], [Post (url +:+ "/" +:+ h) (store !! h) (Ok res)].
    split_and!; try done. by apply stopped_status. }
  intros (pre & h' & post & rs & last & -> & Hlen & Hall & Hstop & ->)%IH.
  exists (h :: pre), h', post, (res :: rs), last. split_and!; try done.
  - simpl. by rewrite Hlen.
  - constructor; [|done]. unfold accepted. by destruct (decide (http.StatusCode res = 200%Z)).
  - by rewrite <-app_assoc.
Qed.

End Upload.

Lemma uploadFiles_inv NewRequest svc version hs url store tr r tr' :
  uploadFiles NewRequest svc version hs url store tr = (r, tr') →
  ∃ evs, tr' = tr ++ evs ∧ uploaded NewRequest version url hs store r evs.
Proof.
  unfold uploadFiles, bind at 1.
  destruct (uploadLoop _ _ _ _ _ _) as [[[]|e] tr1] eqn:Hloop.
  - apply uploadLoop_ok in Hloop as (rs & Hlen & Hall & Hreq & ->).
    unfold bind, call, fail, ret.
    set (a := versions_patch svc _ _ _).
    intros Hout. exists (posts url store hs rs ++ [VersionsPatch version "FINALIZED" a]).
    split.
    + destruct a as [status|e0]; cbn [wrap] in Hout.
      * case_decide; injection Hout as <- <-; by rewrite app_assoc.
      * injection Hout as <- <-. by rewrite app_assoc.
    + replace r with (finalized version a); [by apply uploaded_all|].
      unfold finalized. destruct a as [status|e0]; cbn [wrap] in Hout.
      * case_decide; by injection Hout as <- <-.
      * by injection Hout as <- <-.
  - apply uploadLoop_err in Hloop
      as (pre & h & post & rs & last & -> & Hlen & Hall & Hstop & ->).
    intros [= <- <-]. eexists. split; [done|]. by eapply uploaded_stop.
Qed.

(** ** Counting the POSTs *)

Section Counting.
Variable url : string.

Lemma endpoint_inj h h' : url +:+ "/" +:+ h = url +:+ "/" +:+ h' → h = h'.
Proof. intros H. by do 2 apply (inj (String.app _)) in H. Qed.

Lemma postsTo_app ep tr1 tr2 :
  postsTo ep (tr1 ++ tr2) = postsTo ep tr1 ++ postsTo ep tr2.
Proof.
  induction tr1 as [|ev tr1 IH]; [done|].
  destruct ev; simpl; try done. case_decide; simpl; by rewrite IH.
Qed.

Lemma postsTo_elem ep tr body r :
  (body, r) ∈ postsTo ep tr ↔ Post ep body r ∈ tr.
Proof.
  induction tr as [|ev tr IH]; simpl.
  - split; intros H; by apply elem_of_nil in H.
  - destruct ev; rewrite elem_of_cons, <-?IH; try (split; [by right|by intros [?|?]]).
    case_decide as Hep.
    + subst. rewrite elem_of_cons. split; intros [[=]|H]; subst; auto.
    + split; [by right|]. intros [[=]|H]; [by subst|done].
Qed.

Lemma postsTo_posts_count store hs rs h :
  length rs = length hs →
  length (postsTo (url +:+ "/" +:+ h) (posts url store hs rs)) =
  length (filter (h =.) hs).
Proof.
  revert store rs. induction hs as [|h' hs IH]; intros store [|r rs] [=]; [done|].
  simpl. rewrite filter_cons. case_decide as Hep; case_decide as Hh; simpl.
  - f_equal. by apply IH.
  - apply endpoint_inj in Hep. by subst.
  - by subst.
  - by apply IH.
Qed.

Lemma postsTo_posts_fresh store hs rs h :
  h ∉ hs → postsTo (url +:+ "/" +:+ h) (posts url store hs rs) = [].
Proof.
  revert store rs. induction hs as [|h' hs IH]; intros store [|r rs] Hh; try done.
  apply not_elem_of_cons in Hh as [Hne Hh]. simpl.
  case_decide as Hep; [by apply endpoint_inj in Hep|]. by apply IH.
Qed.

(** Without duplicates, the one POST for a hash carries what the store
    held for it at the start. *)
Lemma postsTo_posts_once store hs rs h :
  length rs = length hs → NoDup hs → h ∈ hs →
  ∃ r, r ∈ rs ∧
       postsTo (url +:+ "/" +:+ h) (posts url store hs rs) = [(store !! h, Ok r)].
Proof.
  revert store rs. induction hs as [|h' hs IH]; intros store [|r rs] [=] Hnd Hin.
  { by apply elem_of_nil in Hin. }
  apply NoDup_cons in Hnd as [Hh' Hnd]. simpl.
  case_decide as Hep.
  - apply endpoint_inj in Hep as ->. exists r. split; [by left|].
    by rewrite postsTo_posts_fresh.
  - apply elem_of_cons in Hin as [->|Hin]; [done|].
    destruct (IH (drain h' store) rs) as (r' & Hr' & ->); try done.
    exists r'. split; [by right|]. unfold drain.
    rewrite lookup_alter_ne; [done|]. by intros ->.
Qed.

(** A hash that is not a key is posted with a nil body every time. *)
Lemma postsTo_posts_absent store hs rs h body r :
  store !! h = None →
  (body, r) ∈ postsTo (url +:+ "/" +:+ h) (posts url store hs rs) →
  body = None.
Proof.
  revert store rs. induction hs as [|h' hs IH]; intros store [|r' rs] Hh; simpl;
    try (intros H; by apply elem_of_nil in H).
  assert (drain h' store !! h = None) as Hdrain.
  { unfold drain. rewrite lookup_alter. case_decide; [subst; by rewrite Hh|done]. }
  case_decide as Hep.
  - apply endpoint_inj in Hep as ->.
    intros [[= -> _]|Hin]%elem_of_cons; [done|]. by eapply IH.
  - by apply IH.
Qed.

End Counting.

(** ** The orchestration *)

Section Run.
Variable Unmarshal : list byte → result FirebaseJSON.
Variable gzip : list byte → list byte.
Variable Sum256 : list byte → list byte.
Variable NewRequest : string → option error.
Variable loc : Local.
Variable svc : Remote.

Lemma run_ran r tr :
  run Unmarshal gzip Sum256 NewRequest loc svc [] = (r, tr) →
  ran Unmarshal gzip Sum256 NewRequest loc svc r tr.
Proof.
  unfold run, bind at 1, lift at 1.
  destruct (readConfig _ _ _) as [fbConf|e] eqn:Hconf.
  2:{ intros [= <- <-]. by apply ran_config. }
  unfold bind at 1, lift at 1, check at 1.
  destruct (DefaultClient loc) as [e|] eqn:Hhttp.
  { intros [= <- <-]. by eapply ran_http_client. }
  unfold bind at 1, lift at 1, check at 1.
  destruct (NewService loc) as [e|] eqn:Hsvc.
  { intros [= <- <-]. by eapply ran_service. }
  assert (prepared Unmarshal loc fbConf) as Hprep by done.
  unfold bind at 1, createVersion, call at 1. fold (siteOf fbConf).
  destruct (versions_create svc [] _ _) as [version|e] eqn:Hcreate; cbn [wrap].
  2:{ intros [= <- <-]. by apply ran_create. }
  unfold bind at 1, lift at 1.
  destruct (readFiles _ _ _ _) as [files|e] eqn:Hfiles.
  2:{ intros [= <- <-]. by eapply ran_walk. }
  unfold bind at 1, getRequiredUploads, call at 1. cbn [app].
  fold (created fbConf version).
  destruct (populate_files svc _ _ _) as [required|e] eqn:Hpop; cbn [wrap].
  2:{ intros [= <- <-]. by eapply ran_populate. }
  fold (populated version files required).
  unfold bind at 1.
  destruct (uploadFiles _ _ _ _ _ _ _) as [[[]|e] tr1] eqn:Hup;
    apply uploadFiles_inv in Hup as (evs & -> & Hup).
  - unfold release, call. intros [= <- <-].
    by eapply ran_release.
  - intros [= <- <-]. by eapply ran_upload.
Qed.

End Run.

(** ** What the trace of [uploadFiles] can contain *)

Section Uploaded.
Variable NewRequest : string → option error.
Variable url : string.

Lemma posts_lookup store hs rs i ev :
  posts url store hs rs !! i = Some ev →
  ∃ h r, hs !! i = Some h ∧ rs !! i = Some r ∧
         ev = Post (url +:+ "/" +:+ h) (foldl (flip drain) store (take i hs) !! h) (Ok r).
Proof.
  revert store rs i. induction hs as [|h hs IH]; intros store [|r rs] [|i]; try done.
  - intros [= <-]. by exists h, r.
  - simpl. intros (h' & r' & ? & ? & ->)%IH. by exists h', r'.
Qed.

Lemma posts_isPost store hs rs : Forall isPost (posts url store hs rs).
Proof.
  revert store rs. induction hs as [|h hs IH]; intros store [|r rs]; simpl; try done.
  constructor; [done|apply IH].
Qed.

Lemma stopped_isPost h body e last :
  stopped NewRequest url h body e last → Forall isPost last.
Proof. destruct 1; repeat constructor. Qed.

(** A failed [uploadFiles] that stopped in the loop has sent no patch; one
    that did send the patch sent it last. *)
Lemma uploaded_patch version hs store r evs ev :
  uploaded NewRequest version url hs store r evs →
  ev ∈ evs → isPatch ev →
  ∃ a, ev = VersionsPatch version "FINALIZED" a ∧ r = finalized version a ∧
       last evs = Some ev.
Proof.
  destruct 1 as [pre h post rs e lst _ _ _ Hstop|rs a _ _ _]; intros Hin Hev.
  - exfalso. apply elem_of_app in Hin as [Hin|Hin].
    + pose proof (posts_isPost store pre rs) as Hall.
      rewrite Forall_forall in Hall. apply Hall in Hin. by destruct ev.
    + apply stopped_isPost in Hstop. rewrite Forall_forall in Hstop.
      apply Hstop in Hin. by destruct ev.
  - apply elem_of_app in Hin as [Hin|Hin].
    + exfalso. pose proof (posts_isPost store hs rs) as Hall.
      rewrite Forall_forall in Hall. apply Hall in Hin. by destruct ev.
    + apply list_elem_of_singleton in Hin as ->. exists a.
      by rewrite last_snoc.
Qed.

Lemma uploaded_no_release version hs store r evs ev :
  uploaded NewRequest version url hs store r evs → ev ∈ evs → ¬ isRelease ev.
Proof.
  intros Hup Hin Hev.
  assert (Forall (λ ev, isPost ev ∨ isPatch ev) evs) as Hall.
  { destruct Hup as [pre h post rs e lst _ _ _ Hstop|rs a _ _ _].
    - apply Forall_app. split; (eapply Forall_impl; [|intros ??; by left]).
      + apply posts_isPost.
      + by eapply stopped_isPost.
    - apply Forall_app. split.
      + eapply Forall_impl; [apply posts_isPost|]. intros ??; by left.
      + apply Forall_singleton. by right. }
  rewrite Forall_forall in Hall. apply Hall in Hin as [?|?]; by destruct ev.
Qed.

(** An answer other than 200 is the last thing [uploadFiles] sees. *)
Lemma uploaded_rejected version hs store r evs i ep body res :
  uploaded NewRequest version url hs store r evs →
  evs !! i = Some (Post ep body (Ok res)) → ¬ accepted res →
  ∃ h, hs !! i = Some h ∧ ep = url +:+ "/" +:+ h ∧
       r = Err ("unexpected response for upload " +:+ h +:+ ": " +:+ http.Status res) ∧
       length evs = S i ∧ Forall isPost evs.
Proof.
  assert (∀ l rs, Forall accepted rs →
            posts url store l rs !! i = Some (Post ep body (Ok res)) → accepted res)
    as Hposts.
  { intros l rs Hrs (h & r' & _ & Hr' & [= _ _ ->])%posts_lookup.
    rewrite Forall_forall in Hrs. apply Hrs. by eapply list_elem_of_lookup_2. }
  destruct 1 as [pre h post rs e lst -> Hlen Hall Hstop|rs a Hlen Hall _];
    intros Hi Hres.
  - pose proof (posts_length url store pre rs Hlen) as Hplen.
    apply lookup_app_Some in Hi as [Hi|[Hge Hi]]; [by apply Hposts in Hi|].
    rewrite Hplen in Hge, Hi.
    destruct Hstop as [e0 Hreq|e0 Hreq|res' Hreq Hres']; [done| |].
    + by destruct (i - length pre).
    + destruct (i - length pre) eqn:Hj; [|done]. injection Hi as <- <- <-.
      assert (i = length pre) as -> by lia.
      exists h. split_and!; try done.
      * by rewrite list_lookup_middle.
      * rewrite length_app, Hplen. simpl. lia.
      * apply Forall_app. split; [apply posts_isPost|by repeat constructor].
  - pose proof (posts_length url store hs rs Hlen) as Hplen.
    apply lookup_app_Some in Hi as [Hi|[Hge Hi]]; [by apply Hposts in Hi|].
    by destruct (i - length (posts url store hs rs)) as [|[|]].
Qed.

(** At most as many POSTs of a hash as the list names it. *)
Lemma uploaded_count version hs store r evs h :
  uploaded NewRequest version url hs store r evs →
  length (postsTo (url +:+ "/" +:+ h) evs) ≤ length (filter (h =.) hs).
Proof.
  destruct 1 as [pre h' post rs e lst -> Hlen Hall Hstop|rs a Hlen Hall _].
  - rewrite postsTo_app, length_app, postsTo_posts_count by done.
    rewrite filter_app, length_app, filter_cons.
    apply Nat.add_le_mono_l.
    destruct Hstop; simpl; try lia;
      (case_decide as Hep; [apply endpoint_inj in Hep as ->|];
       case_decide; simpl; try done; lia).
  - rewrite postsTo_app, length_app, postsTo_posts_count by done. simpl. lia.
Qed.

End Uploaded.

(** ** More on the loop *)

Lemma uploaded_ok NewRequest version url hs store evs :
  uploaded NewRequest version url hs store (Ok tt) evs →
  ∃ rs, length rs = length hs ∧ Forall accepted rs ∧
        evs = posts url store hs rs ++
              [VersionsPatch version "FINALIZED" (Ok "FINALIZED")].
Proof.
  inversion 1 as [|rs a Hlen Hall Hreq Hfin]; subst.
  exists rs. split_and!; try done.
  unfold finalized in Hfin. destruct a as [status|e0]; [|done].
  case_decide as Hne; [done|].
  by destruct (decide (status = "FINALIZED")) as [->|].
Qed.

(** A service that answers every upload with 200 is posted every hash. *)
Lemma uploadLoop_accepted NewRequest svc url hs store tr :
  (∀ tr ep body, ∃ res, do_post svc tr ep body = Ok res ∧ accepted res) →
  Forall (λ h, NewRequest (url +:+ "/" +:+ h) = None) hs →
  ∃ rs, length rs = length hs ∧
        uploadLoop NewRequest svc url hs store tr =
        (Ok tt, tr ++ posts url store hs rs).
Proof.
  intros Hsvc. revert store tr.
  induction hs as [|h hs IH]; intros store tr Hreq.
  - exists []. by rewrite app_nil_r.
  - apply Forall_cons in Hreq as [Hh Hreq].
    destruct (Hsvc tr (url +:+ "/" +:+ h) (store !! h)) as (res & Hpost & Hres).
    destruct (IH (drain h store)
                (tr ++ [Post (url +:+ "/" +:+ h) (store !! h) (Ok res)]) Hreq)
      as (rs & Hlen & Hloop).
    exists (res :: rs). split; [simpl; by rewrite Hlen|].
    cbn [uploadLoop]. unfold bind, lift, call, check, fail.
    rewrite Hh, Hpost. cbn [wrap]. case_decide as Hcode; [done|].
    rewrite Hloop. by rewrite <-app_assoc.
Qed.

Lemma posts_absent url store hs rs h :
  length rs = length hs → h ∈ hs → store !! h = None →
  ∃ r, Post (url +:+ "/" +:+ h) None (Ok r) ∈ posts url store hs rs.
Proof.
  revert store rs. induction hs as [|h' hs IH]; intros store [|r rs] [=] Hin Hh.
  { by apply elem_of_nil in Hin. }
  simpl. destruct (decide (h = h')) as [<-|Hne].
  - exists r. rewrite Hh. by left.
  - apply elem_of_cons in Hin as [?|Hin]; [done|].
    destruct (IH (drain h' store) rs) as [r' Hr']; try done.
    + unfold drain. by rewrite lookup_alter_ne.
    + exists r'. by right.
Qed.

Lemma filter_eq_fresh (hs : list string) h : h ∉ hs → filter (h =.) hs = [].
Proof.
  induction hs as [|h' hs IH]; [done|]. intros [Hne Hh]%not_elem_of_cons.
  rewrite filter_cons. case_decide; [done|by apply IH].
Qed.

Lemma filter_eq_NoDup (hs : list string) h :
  NoDup hs → length (filter (h =.) hs) ≤ 1.
Proof.
  induction 1 as [|h' hs Hh' Hnd IH]; [simpl; lia|].
  rewrite filter_cons. case_decide as Heq; [|done]. subst h'.
  rewrite filter_eq_fresh by done. simpl. lia.
Qed.

(** ** The small site, evaluated *)

Example demo_readFiles :
  readFiles Demo.gzip Demo.Sum256 (Demo.loc (Ok Demo.site)) (Demo.conf []) =
  Ok (Demo.manifest, Demo.store).
Proof. reflexivity. Qed.

Example demo_hex :
  hex.EncodeToString [Byte.xde; Byte.xad; Byte.x00; Byte.x0f] = "dead000f".
Proof. reflexivity. Qed.

Example demo_nested :
  readFiles Demo.gzip Demo.Sum256
    (Demo.loc (Ok (Dir [("a.txt", File (Readable (Demo.bytes "a")));
                        ("css", Dir [("site.css", File (Readable (Demo.bytes "b")));
                                     ("img", Dir [])])])))
    (Demo.conf []) =
  Ok (<["/css/site.css" := "62"]> (<["/a.txt" := "61"]> ∅),
      <["62" := Demo.bytes "b"]> (<["61" := Demo.bytes "a"]> ∅)).
Proof. reflexivity. Qed.

Example demo_unreadable_directory :
  readFiles Demo.gzip Demo.Sum256
    (Demo.loc (Ok (Dir [("a.txt", File (Readable (Demo.bytes "a")));
                        ("css", BadDir "open css: permission denied");
                        ("z.txt", File (Readable (Demo.bytes "z")))])))
    (Demo.conf []) =
  Err "walk public: open css: permission denied".
Proof. reflexivity. Qed.

Example demo_hashes :
  Demo.H1 = "3c68313e48693c2f68313e" ∧ Demo.H2 = "626f64797b7d".
Proof. split; reflexivity. Qed.

Example demo_run :
  run (Demo.Unmarshal []) Demo.gzip Demo.Sum256 Demo.NewRequest
    (Demo.loc (Ok Demo.site)) (Demo.svc [Demo.H1] Demo.ok200 "FINALIZED") [] =
  (Ok tt,
   [VersionsCreate "sites/demo" (servingConf (Demo.conf [])) (Ok "sites/demo/versions/1");
    PopulateFiles "sites/demo/versions/1" Demo.manifest
      (Ok {| firebasehosting.UploadRequiredHashes := [Demo.H1];
             firebasehosting.UploadUrl := "https://upload.test/files" |});
    Post ("https://upload.test/files/" +:+ Demo.H1) (Some Demo.index) (Ok Demo.ok200);
    VersionsPatch "sites/demo/versions/1" "FINALIZED" (Ok "FINALIZED");
    ReleasesCreate "sites/demo" "sites/demo/versions/1" (Ok tt)]).
Proof. vm_compute. reflexivity. Qed.

(** * The claims about the catalog build *)

(** C1 (the code departs from the claim). A file whose path is one of the
    ignore patterns is not skipped: with the public root holding only
    [firebase.json] and the ignore list [["firebase.json"]], [readFiles]
    succeeds, the manifest maps ["/firebase.json"] to the hash of the
    compressed file and the content store holds the compressed bytes under
    that hash. *)
Theorem C1_ignored_file_is_catalogued
    (gzip Sum256 : list byte → list byte) (content : list byte) :
  let fbConf := Demo.conf ["firebase.json"] in
  let loc := Demo.loc (Ok (Dir [("firebase.json", File (Readable content))])) in
  let hash := contentHash Sum256 (gzip content) in
  "firebase.json" ∈ Ignore (Hosting fbConf) ∧
  ∃ pathToHash hashToGzip,
    readFiles gzip Sum256 loc fbConf = Ok (pathToHash, hashToGzip) ∧
    pathToHash !! "/firebase.json" = Some hash ∧
    hashToGzip !! hash = Some (gzip content).
Proof.
  intros fbConf loc hash. split; [by left|].
  exists (<["/firebase.json" := hash]> ∅), (<[hash := gzip content]> ∅).
  split; [reflexivity|]. by rewrite !lookup_insert_eq.
Qed.

(** C5. After a successful [readFiles], every non-directory entry under the
    root was read to the end, and the manifest maps its path, with a leading
    slash, to the hexadecimal encoding of the SHA-256 of the whole gzip
    stream of its content: two digits for each byte of the digest, only the
    digits 0-9 and a-f, and reading them back gives the digest. *)
Theorem C5_manifest_hash_of_compressed_stream
    (gzip Sum256 : list byte → list byte) loc fbConf pathToHash hashToGzip p f :
  readFiles gzip Sum256 loc fbConf = Ok (pathToHash, hashToGzip) →
  NoDup (regularFiles (DirFS loc (Public (Hosting fbConf)))).*1 →
  (p, f) ∈ regularFiles (DirFS loc (Public (Hosting fbConf))) →
  ∃ content hash,
    f = Readable content ∧
    pathToHash !! ("/" +:+ p) = Some hash ∧
    hash = hex.EncodeToString (Sum256 (gzip content)) ∧
    String.length hash = 2 * length (Sum256 (gzip content)) ∧
    forallb hex.lower_hex (list_ascii_of_string hash) = true ∧
    hex.decode hash = Some (Sum256 (gzip content)).
Proof.
  intros [Hst Hall]%readFiles_ok Hnd Hin.
  rewrite Forall_forall in Hall. destruct (Hall _ Hin) as [content Hf].
  cbn [snd] in Hf. subst f.
  exists content, (hex.EncodeToString (Sum256 (gzip content))).
  split_and!; [done| |done| | |].
  - apply (f_equal fst) in Hst. cbn [fst] in Hst. rewrite Hst.
    by apply foldl_record_lookup.
  - apply EncodeToString_length.
  - apply EncodeToString_lower_hex.
  - apply decode_EncodeToString.
Qed.

Lemma C5_witness :
  ∃ content hash,
    Readable Demo.index = Readable content ∧
    Demo.manifest !! ("/" +:+ "index.html") = Some hash ∧
    hash = hex.EncodeToString (Demo.Sum256 (Demo.gzip content)) ∧
    String.length hash = 2 * length (Demo.Sum256 (Demo.gzip content)) ∧
    forallb hex.lower_hex (list_ascii_of_string hash) = true ∧
    hex.decode hash = Some (Demo.Sum256 (Demo.gzip content)).
Proof.
  apply (C5_manifest_hash_of_compressed_stream Demo.gzip Demo.Sum256
           (Demo.loc (Ok Demo.site)) (Demo.conf []) Demo.manifest Demo.store).
  - reflexivity.
  - apply (bool_decide_unpack _). vm_compute. exact I.
  - apply (list_elem_of_lookup_2 _ 1). reflexivity.
Defined.

(** C7. After a successful [readFiles], every hash the manifest gives to a
    path is a key of the content store. *)
Theorem C7_manifest_hashes_in_store
    (gzip Sum256 : list byte → list byte) loc fbConf pathToHash hashToGzip :
  readFiles gzip Sum256 loc fbConf = Ok (pathToHash, hashToGzip) →
  ∀ p h, pathToHash !! p = Some h → is_Some (hashToGzip !! h).
Proof.
  intros [Hst _]%readFiles_ok p h Hp.
  assert (covered (pathToHash, hashToGzip)) as Hcov.
  { rewrite Hst. apply foldl_record_covered. intros p' h' H.
    cbn [fst] in H. by rewrite lookup_empty in H. }
  by apply (Hcov p h).
Qed.

Lemma C7_witness :
  Demo.manifest !! "/index.html" = Some Demo.H1 ∧ is_Some (Demo.store !! Demo.H1).
Proof.
  split; [reflexivity|].
  apply (C7_manifest_hashes_in_store Demo.gzip Demo.Sum256
           (Demo.loc (Ok Demo.site)) (Demo.conf []) Demo.manifest Demo.store
           eq_refl "/index.html" Demo.H1).
  reflexivity.
Defined.

(** C8. The manifest is determined by the snapshot, that is, by the files
    under the root and their bytes. Take two builds whose roots hold the
    same files with the same contents, in whatever order the directories
    list them, with the same ignore list, and in which the compressor gives
    each of these files the stream it gave it in the other build. If the
    first build succeeds, then every manifest the second returns has the
    same keys and the same hash at every key; and over the very same tree
    the second build succeeds as well. Nothing else enters: not the rest of
    the configuration, not the machine, not the order of the walk. *)
Theorem C8_catalog_deterministic
    (gzip1 gzip2 Sum256 : list byte → list byte) loc1 loc2 fbConf1 fbConf2 st1 :
  readFiles gzip1 Sum256 loc1 fbConf1 = Ok st1 →
  regularFiles (DirFS loc1 (Public (Hosting fbConf1))) ≡ₚ
    regularFiles (DirFS loc2 (Public (Hosting fbConf2))) →
  NoDup (regularFiles (DirFS loc1 (Public (Hosting fbConf1)))).*1 →
  Ignore (Hosting fbConf1) = Ignore (Hosting fbConf2) →
  (∀ p content,
     (p, Readable content) ∈ regularFiles (DirFS loc1 (Public (Hosting fbConf1))) →
     gzip1 content = gzip2 content) →
  (∀ st2,
     readFiles gzip2 Sum256 loc2 fbConf2 = Ok st2 →
     dom st1.1 = dom st2.1 ∧ ∀ k, st1.1 !! k = st2.1 !! k) ∧
  (DirFS loc2 (Public (Hosting fbConf2)) = DirFS loc1 (Public (Hosting fbConf1)) →
   ∃ st2, readFiles gzip2 Sum256 loc2 fbConf2 = Ok st2).
Proof.
  intros Hst1 Hperm Hnd1 _ Hgz. split.
  - intros st2 Hst2.
    apply readFiles_ok in Hst1 as [Hst1 _]. apply readFiles_ok in Hst2 as [Hst2 _].
    apply (f_equal fst) in Hst1, Hst2. cbn [fst] in Hst1, Hst2.
    assert (NoDup (regularFiles (DirFS loc2 (Public (Hosting fbConf2)))).*1) as Hnd2.
    { by rewrite <-Hperm. }
    assert (st1.1 = st2.1) as Heq; [|by rewrite Heq].
    apply map_eq. intros k. apply option_eq. intros h.
    rewrite Hst1, Hst2. split.
    + intros [Hk|(p & c & Hin & -> & ->)]%foldl_record_lookup_Some.
      { cbn [fst] in Hk. by rewrite lookup_empty in Hk. }
      rewrite (Hgz p c Hin). apply foldl_record_lookup; [done|]. by rewrite <-Hperm.
    + intros [Hk|(p & c & Hin & -> & ->)]%foldl_record_lookup_Some.
      { cbn [fst] in Hk. by rewrite lookup_empty in Hk. }
      rewrite <-Hperm in Hin. rewrite <-(Hgz p c Hin).
      by apply foldl_record_lookup.
  - intros Htree. revert Hst1. unfold readFiles, WalkDir. rewrite Htree.
    destruct (DirFS loc1 _) as [d|e]; [|done]. rewrite !walkDir_calls.
    destruct (foldM (step (visit gzip1 Sum256)) _ _) as [st|] eqn:Hwalk; [|done].
    intros _. apply foldM_visit_ok_fine in Hwalk.
    rewrite foldM_visit_fine by done. by eexists.
Qed.

Lemma C8_witness :
  let listed :=
    Dir [("style.css", File (Readable Demo.style));
         ("copy.html", File (Readable Demo.index));
         ("index.html", File (Readable Demo.index))] in
  let other :=
    {| ReadFile := λ _, Err "gone"; DefaultClient := Some "no credentials";
       NewService := None; DirFS := λ _, Ok listed |} in
  let fbConf :=
    {| Hosting := {| Site := "other"; Public := "dist"; Ignore := [];
                     CleanURLs := true; TrailingSlash := true;
                     Headers := []; Redirects := [] |} |} in
  (∀ st2,
     readFiles Demo.gzip Demo.Sum256 other fbConf = Ok st2 →
     dom Demo.manifest = dom st2.1 ∧ ∀ k, Demo.manifest !! k = st2.1 !! k) ∧
  (DirFS other (Public (Hosting fbConf)) =
     DirFS (Demo.loc (Ok Demo.site)) (Public (Hosting (Demo.conf []))) →
   ∃ st2, readFiles Demo.gzip Demo.Sum256 other fbConf = Ok st2).
Proof.
  apply (C8_catalog_deterministic Demo.gzip Demo.gzip Demo.Sum256
           (Demo.loc (Ok Demo.site)) _ (Demo.conf []) _ (Demo.manifest, Demo.store)).
  - reflexivity.
  - symmetry.
    apply (Permutation_cons_append
             [("copy.html", Readable Demo.index); ("index.html", Readable Demo.index)]
             ("style.css", Readable Demo.style)).
  - apply (bool_decide_unpack _). vm_compute. exact I.
  - reflexivity.
  - reflexivity.
Defined.

(** * The claims about the upload *)

(** C2 (as the code has it). When every endpoint can be requested and every
    upload is answered 200, [uploadFiles] posts each hash as many times as
    the required list names it, whatever paths share it; when the list has
    no duplicates, each of its hashes is posted exactly once, to the upload
    URL followed by a slash and the hash, with the content store's entry for
    the hash as body. *)
Theorem C2_listed_hashes_posted
    NewRequest svc version hs url (store : gmap string (list byte)) tr r evs :
  uploadFiles NewRequest svc version hs url store tr = (r, tr ++ evs) →
  Forall (λ h, NewRequest (url +:+ "/" +:+ h) = None) hs →
  (∀ ep body a, Post ep body a ∈ evs → ∃ res, a = Ok res ∧ accepted res) →
  (∀ h, length (postsTo (url +:+ "/" +:+ h) evs) = length (filter (h =.) hs)) ∧
  (NoDup hs → ∀ h, h ∈ hs →
     ∃ res, accepted res ∧
            postsTo (url +:+ "/" +:+ h) evs = [(store !! h, Ok res)]).
Proof.
  intros (evs' & ->%app_inv_head & Hup)%uploadFiles_inv Hreq Hans.
  destruct Hup as [pre h' post rs e lst -> Hlen Hall Hstop|rs a Hlen Hall _].
  - exfalso. destruct Hstop as [e0 Hh'|e0 _|res _ Hres].
    + apply Forall_app in Hreq as [_ [Hh _]%Forall_cons]. congruence.
    + match type of Hans with
      | ∀ ep body a, _ ∈ ?l ++ [?ev] → _ =>
          assert (ev ∈ l ++ [ev]) as Hin by (apply elem_of_app; right; by left)
      end.
      by apply Hans in Hin as (res & [=] & _).
    + match type of Hans with
      | ∀ ep body a, _ ∈ ?l ++ [?ev] → _ =>
          assert (ev ∈ l ++ [ev]) as Hin by (apply elem_of_app; right; by left)
      end.
      by apply Hans in Hin as (res' & [= <-] & Hacc).
  - split.
    + intros h. rewrite postsTo_app, length_app, postsTo_posts_count by done.
      simpl. lia.
    + intros Hnd h Hin.
      destruct (postsTo_posts_once url store hs rs h Hlen Hnd Hin) as (res & Hres & Hto).
      exists res. split.
      * rewrite Forall_forall in Hall. by apply Hall.
      * rewrite postsTo_app, Hto. by rewrite app_nil_r.
Qed.

Lemma C2_witness :
  let url := "https://upload.test/files" in
  (∀ h, length
          (postsTo (url +:+ "/" +:+ h)
             [Post (url +:+ "/" +:+ Demo.H1) (Some Demo.index) (Ok Demo.ok200);
              VersionsPatch "v1" "FINALIZED" (Ok "FINALIZED")]) =
        length (filter (h =.) [Demo.H1])) ∧
  (NoDup [Demo.H1] → ∀ h, h ∈ [Demo.H1] →
     ∃ res, accepted res ∧
            postsTo (url +:+ "/" +:+ h)
              [Post (url +:+ "/" +:+ Demo.H1) (Some Demo.index) (Ok Demo.ok200);
               VersionsPatch "v1" "FINALIZED" (Ok "FINALIZED")] =
            [(Demo.store !! h, Ok res)]).
Proof.
  apply (C2_listed_hashes_posted Demo.NewRequest
           (Demo.svc [Demo.H1] Demo.ok200 "FINALIZED") "v1" [Demo.H1]
           "https://upload.test/files" Demo.store [] (Ok tt)).
  - vm_compute. reflexivity.
  - repeat constructor.
  - intros ep body a [Heq|Hin%list_elem_of_singleton]%elem_of_cons.
    + injection Heq as -> -> ->. exists Demo.ok200. by split.
    + discriminate.
Defined.

(** C2 as stated does not hold. A first upload answered 500 leaves the second
    hash of the list unsent; and a list that names a hash twice has it posted
    twice, the second time with the emptied buffer. *)
Lemma C2_counterexample :
  let url := "https://upload.test/files" in
  let stopped := uploadFiles Demo.NewRequest (Demo.svc [] Demo.err500 "FINALIZED")
                   "v1" [Demo.H1; Demo.H2] url Demo.store [] in
  let twice := uploadFiles Demo.NewRequest (Demo.svc [] Demo.ok200 "FINALIZED")
                 "v1" [Demo.H1; Demo.H1] url Demo.store [] in
  Demo.H2 ∈ [Demo.H1; Demo.H2] ∧
  postsTo (url +:+ "/" +:+ Demo.H2) stopped.2 = [] ∧
  twice.1 = Ok tt ∧
  postsTo (url +:+ "/" +:+ Demo.H1) twice.2 =
    [(Some Demo.index, Ok Demo.ok200); (Some [], Ok Demo.ok200)].
Proof.
  split; [right; left|]. vm_compute. by split_and!.
Qed.

(** C10. A required hash that is not a key of the content store does not
    stop [uploadFiles]: with endpoints that can be requested and a service
    that answers every upload with 200, the loop runs to its end and the
    finalizing patch is sent; the hash is posted, and every POST to its
    endpoint has the nil body. *)
Theorem C10_missing_content_posted_with_nil_body
    NewRequest svc version hs url (store : gmap string (list byte)) tr h :
  h ∈ hs →
  store !! h = None →
  Forall (λ h, NewRequest (url +:+ "/" +:+ h) = None) hs →
  (∀ tr ep body, ∃ res, do_post svc tr ep body = Ok res ∧ accepted res) →
  ∃ rs a,
    length rs = length hs ∧
    uploadLoop NewRequest svc url hs store tr = (Ok tt, tr ++ posts url store hs rs) ∧
    uploadFiles NewRequest svc version hs url store tr =
      (finalized version a,
       tr ++ posts url store hs rs ++ [VersionsPatch version "FINALIZED" a]) ∧
    (∃ res, Post (url +:+ "/" +:+ h) None (Ok res) ∈ posts url store hs rs) ∧
    (∀ body r, Post (url +:+ "/" +:+ h) body r ∈ posts url store hs rs →
               body = None).
Proof.
  intros Hin Hh Hreq Hsvc.
  destruct (uploadLoop_accepted NewRequest svc url hs store tr Hsvc Hreq)
    as (rs & Hlen & Hloop).
  exists rs, (versions_patch svc (tr ++ posts url store hs rs) version "FINALIZED").
  split_and!; [done|done| | |].
  - unfold uploadFiles, bind at 1. rewrite Hloop.
    unfold bind, call, fail, ret, finalized.
    destruct (versions_patch svc _ _ _) as [status|e0]; cbn [wrap].
    + case_decide; by rewrite app_assoc.
    + by rewrite app_assoc.
  - by apply posts_absent.
  - intros body r Hpost%postsTo_elem. by eapply postsTo_posts_absent.
Qed.

Lemma C10_witness :
  ∃ rs a,
    length rs = 2 ∧
    uploadLoop Demo.NewRequest (Demo.svc [] Demo.ok200 "FINALIZED")
      "https://upload.test/files" [Demo.H1; "feed"] Demo.store [] =
      (Ok tt, posts "https://upload.test/files" Demo.store [Demo.H1; "feed"] rs) ∧
    uploadFiles Demo.NewRequest (Demo.svc [] Demo.ok200 "FINALIZED") "v1"
      [Demo.H1; "feed"] "https://upload.test/files" Demo.store [] =
      (finalized "v1" a,
       posts "https://upload.test/files" Demo.store [Demo.H1; "feed"] rs ++
       [VersionsPatch "v1" "FINALIZED" a]) ∧
    (∃ res, Post ("https://upload.test/files" +:+ "/" +:+ "feed") None (Ok res)
            ∈ posts "https://upload.test/files" Demo.store [Demo.H1; "feed"] rs) ∧
    (∀ body r, Post ("https://upload.test/files" +:+ "/" +:+ "feed") body r
               ∈ posts "https://upload.test/files" Demo.store [Demo.H1; "feed"] rs →
               body = None).
Proof.
  apply (C10_missing_content_posted_with_nil_body Demo.NewRequest
           (Demo.svc [] Demo.ok200 "FINALIZED") "v1" [Demo.H1; "feed"]
           "https://upload.test/files" Demo.store [] "feed").
  - right. left.
  - vm_compute. reflexivity.
  - repeat constructor.
  - intros tr ep body. exists Demo.ok200. by split.
Defined.

(** C9 (as the code has it). Two files with the same content get the same
    hash in the manifest; and whatever the service then asks for,
    [uploadFiles] posts that hash at most as many times as the required list
    names it, hence at most once when the list has no duplicates. *)
Theorem C9_shared_content_shared_hash
    (gzip Sum256 : list byte → list byte) loc fbConf pathToHash hashToGzip
    p1 p2 content :
  readFiles gzip Sum256 loc fbConf = Ok (pathToHash, hashToGzip) →
  NoDup (regularFiles (DirFS loc (Public (Hosting fbConf)))).*1 →
  (p1, Readable content) ∈ regularFiles (DirFS loc (Public (Hosting fbConf))) →
  (p2, Readable content) ∈ regularFiles (DirFS loc (Public (Hosting fbConf))) →
  ∃ hash,
    pathToHash !! ("/" +:+ p1) = Some hash ∧
    pathToHash !! ("/" +:+ p2) = Some hash ∧
    ∀ NewRequest svc version hs url tr r evs,
      uploadFiles NewRequest svc version hs url hashToGzip tr = (r, tr ++ evs) →
      length (postsTo (url +:+ "/" +:+ hash) evs) ≤ length (filter (hash =.) hs) ∧
      (NoDup hs → length (postsTo (url +:+ "/" +:+ hash) evs) ≤ 1).
Proof.
  intros [Hst _]%readFiles_ok Hnd Hp1 Hp2.
  apply (f_equal fst) in Hst. cbn [fst] in Hst.
  exists (contentHash Sum256 (gzip content)). split_and!.
  - rewrite Hst. by apply foldl_record_lookup.
  - rewrite Hst. by apply foldl_record_lookup.
  - intros NewRequest svc version hs url tr r evs
      (evs' & ->%app_inv_head & Hup)%uploadFiles_inv.
    pose proof (uploaded_count _ _ _ _ _ _ _ (contentHash Sum256 (gzip content)) Hup)
      as Hle.
    split; [done|]. intros Hhs.
    pose proof (filter_eq_NoDup hs (contentHash Sum256 (gzip content)) Hhs). lia.
Qed.

Lemma C9_witness :
  ∃ hash,
    Demo.manifest !! ("/" +:+ "copy.html") = Some hash ∧
    Demo.manifest !! ("/" +:+ "index.html") = Some hash ∧
    ∀ NewRequest svc version hs url tr r evs,
      uploadFiles NewRequest svc version hs url Demo.store tr = (r, tr ++ evs) →
      length (postsTo (url +:+ "/" +:+ hash) evs) ≤ length (filter (hash =.) hs) ∧
      (NoDup hs → length (postsTo (url +:+ "/" +:+ hash) evs) ≤ 1).
Proof.
  apply (C9_shared_content_shared_hash Demo.gzip Demo.Sum256
           (Demo.loc (Ok Demo.site)) (Demo.conf []) Demo.manifest Demo.store
           "copy.html" "index.html" Demo.index).
  - reflexivity.
  - apply (bool_decide_unpack _). vm_compute. exact I.
  - apply (list_elem_of_lookup_2 _ 0). reflexivity.
  - apply (list_elem_of_lookup_2 _ 1). reflexivity.
Defined.

(** C9 as stated does not hold: the loop sends what the service lists. With
    [copy.html] and [index.html] alike and a service that lists their hash
    twice, the run posts that hash twice. *)
Lemma C9_counterexample :
  let out := run (Demo.Unmarshal []) Demo.gzip Demo.Sum256 Demo.NewRequest
               (Demo.loc (Ok Demo.site))
               (Demo.svc [Demo.H1; Demo.H1] Demo.ok200 "FINALIZED") [] in
  Demo.manifest !! "/copy.html" = Some Demo.H1 ∧
  Demo.manifest !! "/index.html" = Some Demo.H1 ∧
  PopulateFiles "sites/demo/versions/1" Demo.manifest
    (Ok {| firebasehosting.UploadRequiredHashes := [Demo.H1; Demo.H1];
           firebasehosting.UploadUrl := "https://upload.test/files" |}) ∈ out.2 ∧
  out.1 = Ok tt ∧
  length (postsTo ("https://upload.test/files" +:+ "/" +:+ Demo.H1) out.2) = 2.
Proof.
  split_and!; try (vm_compute; reflexivity).
  apply (list_elem_of_lookup_2 _ 1). vm_compute. reflexivity.
Qed.

(** * The claims about the run *)

(** The calls before the upload are neither uploads, patches nor releases. *)
Ltac early_trace :=
  cbn [app] in *;
  repeat match goal with
    | H : _ ∈ [] |- _ => by apply elem_of_nil in H
    | H : _ ∈ _ :: _ |- _ => apply elem_of_cons in H as [H|H]
    | H : _ = created _ _ _ |- _ => unfold created in H
    | H : _ = populated _ _ _ |- _ => unfold populated in H
    end;
  try discriminate.

(** C3. A release is created only directly after a patch that the service
    answered with the status FINALIZED; when the patch is answered with any
    other status, the run ends with the finalization error and its trace
    holds no release. *)
Theorem C3_release_only_after_finalized
    Unmarshal gzip Sum256 NewRequest loc svc r tr :
  run Unmarshal gzip Sum256 NewRequest loc svc [] = (r, tr) →
  (∀ site version a,
     ReleasesCreate site version a ∈ tr →
     ∃ pre, tr = pre ++ [VersionsPatch version "FINALIZED" (Ok "FINALIZED");
                         ReleasesCreate site version a]) ∧
  (∀ version sent status,
     VersionsPatch version sent (Ok status) ∈ tr →
     status ≠ "FINALIZED" →
     r = Err ("unexpected finalization status: " +:+ status) ∧
     Forall (λ ev, ¬ isRelease ev) tr).
Proof.
  intros Hran%run_ran.
  destruct Hran as [e _|fbConf e _ _|fbConf e _ _ _|fbConf e _ _
                   |fbConf version e _ _ _|fbConf version files e _ _ _ _
                   |fbConf version files required e evs _ _ _ _ Hup
                   |fbConf version files required evs a _ _ _ _ Hup];
    split; intros; early_trace.
  - exfalso. by eapply uploaded_no_release.
  - match goal with H : VersionsPatch _ _ _ ∈ evs |- _ =>
      destruct (uploaded_patch _ _ _ _ _ _ _ _ Hup H) as (a & Heq & Hr & _);
        [exact I|injection Heq as -> -> <-]
    end.
    unfold finalized in Hr. case_decide; [|done]. split; [done|].
    apply Forall_cons. split; [by intros []|]. apply Forall_cons. split; [by intros []|].
    apply Forall_forall. intros ev Hev. by eapply uploaded_no_release.
  - apply uploaded_ok in Hup as (rs & _ & _ & ->).
    match goal with H : ReleasesCreate _ _ _ ∈ _ |- _ =>
      apply elem_of_app in H as [H|H];
        [apply elem_of_app in H as [H|H]|apply list_elem_of_singleton in H]
    end.
    + exfalso. pose proof (posts_isPost (firebasehosting.UploadUrl required) files.2
                             (firebasehosting.UploadRequiredHashes required) rs) as Hall.
      rewrite Forall_forall in Hall.
      match goal with H : _ ∈ posts _ _ _ _ |- _ => by apply Hall in H end.
    + by apply list_elem_of_singleton in H.
    + injection H as -> -> ->.
      eexists (_ :: _ :: posts _ _ _ _). cbn [app]. do 2 f_equal.
      by rewrite <-app_assoc.
  - exfalso.
    match goal with H : VersionsPatch _ _ _ ∈ _ |- _ =>
      apply elem_of_app in H as [H|H]; [|by apply list_elem_of_singleton in H];
      destruct (uploaded_patch _ _ _ _ _ _ _ _ Hup H) as (a' & Heq & Hr & _);
        [exact I|injection Heq as -> -> <-]
    end.
    unfold finalized in Hr. by case_decide.
Qed.

Lemma C3_witness :
  let tr :=
    [VersionsCreate "sites/demo" (servingConf (Demo.conf []))
       (Ok "sites/demo/versions/1");
     PopulateFiles "sites/demo/versions/1" Demo.manifest
       (Ok {| firebasehosting.UploadRequiredHashes := [];
              firebasehosting.UploadUrl := "https://upload.test/files" |});
     VersionsPatch "sites/demo/versions/1" "FINALIZED" (Ok "CREATED")] in
  (∀ site version a,
     ReleasesCreate site version a ∈ tr →
     ∃ pre, tr = pre ++ [VersionsPatch version "FINALIZED" (Ok "FINALIZED");
                         ReleasesCreate site version a]) ∧
  (∀ version sent status,
     VersionsPatch version sent (Ok status) ∈ tr →
     status ≠ "FINALIZED" →
     @Err unit ("unexpected finalization status: " +:+ "CREATED") =
       Err ("unexpected finalization status: " +:+ status) ∧
     Forall (λ ev, ¬ isRelease ev) tr).
Proof.
  apply (C3_release_only_after_finalized (Demo.Unmarshal []) Demo.gzip
           Demo.Sum256 Demo.NewRequest (Demo.loc (Ok Demo.site))
           (Demo.svc [] Demo.ok200 "CREATED")).
  vm_compute. reflexivity.
Defined.

(** C6. An upload answered with a status other than 200 ends the run: the
    run returns the error that names the hash and the status text, the
    answer is the last event of the trace (no upload follows), and the trace
    holds neither a patch nor a release. *)
Theorem C6_rejected_upload_aborts
    Unmarshal gzip Sum256 NewRequest loc svc r tr i ep body res :
  run Unmarshal gzip Sum256 NewRequest loc svc [] = (r, tr) →
  tr !! i = Some (Post ep body (Ok res)) →
  http.StatusCode res ≠ 200%Z →
  ∃ version files required h,
    tr !! 1 = Some (PopulateFiles version files (Ok required)) ∧
    2 ≤ i ∧
    firebasehosting.UploadRequiredHashes required !! (i - 2) = Some h ∧
    ep = firebasehosting.UploadUrl required +:+ "/" +:+ h ∧
    r = Err ("unexpected response for upload " +:+ h +:+ ": " +:+ http.Status res) ∧
    length tr = S i ∧
    Forall (λ ev, ¬ isPatch ev ∧ ¬ isRelease ev) tr.
Proof.
  intros Hran%run_ran Hi Hres.
  destruct Hran as [e _|fbConf e _ _|fbConf e _ _ _|fbConf e _ _
                   |fbConf version e _ _ _|fbConf version files e _ _ _ _
                   |fbConf version files required e evs _ _ _ _ Hup
                   |fbConf version files required evs a _ _ _ _ Hup];
    try (by destruct i as [|[|[|]]]).
  - destruct i as [|[|i]]; [done..|]. cbn [app lookup list_lookup] in Hi.
    destruct (uploaded_rejected _ _ _ _ _ _ _ _ _ _ _ Hup Hi Hres)
      as (h & Hh & -> & -> & Hlen & Hall).
    exists version, files.1, required, h. split_and!; try done.
    + lia.
    + simpl. by rewrite Nat.sub_0_r.
    + simpl. by rewrite Hlen.
    + cbn [app]. do 2 (apply Forall_cons; split; [by split; intros []|]).
      eapply Forall_impl; [done|]. intros [] ?; by split; intros [].
  - exfalso. destruct i as [|[|i]]; [done..|]. cbn [app lookup list_lookup] in Hi.
    apply lookup_app_Some in Hi as [Hi|[_ Hi]].
    + by destruct (uploaded_rejected _ _ _ _ _ _ _ _ _ _ _ Hup Hi Hres)
        as (h & _ & _ & [=] & _).
    + by destruct (i - length evs) as [|[|]].
Qed.

Lemma C6_witness :
  ∃ version files required h,
    [VersionsCreate "sites/demo" (servingConf (Demo.conf []))
       (Ok "sites/demo/versions/1");
     PopulateFiles "sites/demo/versions/1" Demo.manifest
       (Ok {| firebasehosting.UploadRequiredHashes := [Demo.H1; Demo.H2];
              firebasehosting.UploadUrl := "https://upload.test/files" |});
     Post ("https://upload.test/files/" +:+ Demo.H1) (Some Demo.index)
       (Ok Demo.err500)] !! 1 = Some (PopulateFiles version files (Ok required)) ∧
    2 ≤ 2 ∧
    firebasehosting.UploadRequiredHashes required !! (2 - 2) = Some h ∧
    "https://upload.test/files/" +:+ Demo.H1 =
      firebasehosting.UploadUrl required +:+ "/" +:+ h ∧
    @Err unit ("unexpected response for upload " +:+ Demo.H1 +:+ ": " +:+
               "500 Internal Server Error") =
      Err ("unexpected response for upload " +:+ h +:+ ": " +:+
           http.Status Demo.err500) ∧
    length
      [VersionsCreate "sites/demo" (servingConf (Demo.conf []))
         (Ok "sites/demo/versions/1");
       PopulateFiles "sites/demo/versions/1" Demo.manifest
         (Ok {| firebasehosting.UploadRequiredHashes := [Demo.H1; Demo.H2];
                firebasehosting.UploadUrl := "https://upload.test/files" |});
       Post ("https://upload.test/files/" +:+ Demo.H1) (Some Demo.index)
         (Ok Demo.err500)] = 3 ∧
    Forall (λ ev, ¬ isPatch ev ∧ ¬ isRelease ev)
      [VersionsCreate "sites/demo" (servingConf (Demo.conf []))
         (Ok "sites/demo/versions/1");
       PopulateFiles "sites/demo/versions/1" Demo.manifest
         (Ok {| firebasehosting.UploadRequiredHashes := [Demo.H1; Demo.H2];
                firebasehosting.UploadUrl := "https://upload.test/files" |});
       Post ("https://upload.test/files/" +:+ Demo.H1) (Some Demo.index)
         (Ok Demo.err500)].
Proof.
  apply (C6_rejected_upload_aborts (Demo.Unmarshal []) Demo.gzip Demo.Sum256
           Demo.NewRequest (Demo.loc (Ok Demo.site))
           (Demo.svc [Demo.H1; Demo.H2] Demo.err500 "FINALIZED")
           _ _ 2 _ (Some Demo.index) Demo.err500).
  - vm_compute. reflexivity.
  - reflexivity.
  - vm_compute. discriminate.
Defined.

(** C4 (as the code has it). A run that fails reading the configuration has
    made no remote call. A run that fails in the catalog build (the walk, or
    opening or reading a file) returns the walk error after exactly one
    remote call, the creation of the version, and makes none after it. *)
Theorem C4_local_errors_and_remote_calls
    Unmarshal gzip Sum256 NewRequest loc svc step e :
  localError Unmarshal gzip Sum256 loc svc step e →
  ∃ tr,
    run Unmarshal gzip Sum256 NewRequest loc svc [] = (Err e, tr) ∧
    match step with
    | ConfigStep => tr = []
    | CatalogStep =>
        ∃ fbConf version e',
          readConfig Unmarshal loc "firebase.json" = Ok fbConf ∧
          e = "walk " +:+ Public (Hosting fbConf) +:+ ": " +:+ e' ∧
          tr = [VersionsCreate (siteOf fbConf) (servingConf fbConf) (Ok version)]
    end.
Proof.
  destruct 1 as [e Hconf|fbConf version e (Hconf & Hhttp & Hsvc) Hcreate Hfiles].
  - exists []. split; [|done]. unfold run, bind, lift. by rewrite Hconf.
  - destruct (readFiles_err _ _ _ _ _ Hfiles) as [e' He'].
    eexists. split; [|by exists fbConf, version, e'].
    unfold run, bind, lift, check, createVersion, call.
    rewrite Hconf, Hhttp, Hsvc. fold (siteOf fbConf). rewrite Hcreate.
    cbn [wrap]. by rewrite Hfiles.
Qed.

Lemma C4_witness :
  ∃ tr,
    run (Demo.Unmarshal []) Demo.gzip Demo.Sum256 Demo.NewRequest
      (Demo.loc (Err "open public: no such file or directory"))
      (Demo.svc [] Demo.ok200 "FINALIZED") [] =
      (Err "walk public: open public: no such file or directory", tr) ∧
    ∃ fbConf version e',
      readConfig (Demo.Unmarshal [])
        (Demo.loc (Err "open public: no such file or directory"))
        "firebase.json" = Ok fbConf ∧
      "walk public: open public: no such file or directory" =
        "walk " +:+ Public (Hosting fbConf) +:+ ": " +:+ e' ∧
      tr = [VersionsCreate (siteOf fbConf) (servingConf fbConf) (Ok version)].
Proof.
  apply (C4_local_errors_and_remote_calls (Demo.Unmarshal []) Demo.gzip
           Demo.Sum256 Demo.NewRequest
           (Demo.loc (Err "open public: no such file or directory"))
           (Demo.svc [] Demo.ok200 "FINALIZED") CatalogStep).
  by apply (catalog_error _ _ _ _ _ (Demo.conf []) "sites/demo/versions/1").
Defined.

(** C4 as stated does not hold: the version is created before the files are
    read. With a file under the root that cannot be opened, the run fails
    with the walk error after the service has been asked for a version. *)
Lemma C4_counterexample :
  let loc := Demo.loc (Ok (Dir [("index.html", File (OpenFails "permission denied"))])) in
  let svc := Demo.svc [] Demo.ok200 "FINALIZED" in
  readFiles Demo.gzip Demo.Sum256 loc (Demo.conf []) =
    Err "walk public: open index.html: permission denied" ∧
  run (Demo.Unmarshal []) Demo.gzip Demo.Sum256 Demo.NewRequest loc svc [] =
    (Err "walk public: open index.html: permission denied",
     [VersionsCreate "sites/demo" (servingConf (Demo.conf []))
        (Ok "sites/demo/versions/1")]).
Proof. split; vm_compute; reflexivity. Qed.


(** * Further properties of the catalog build *)

Section CatalogMore.
Variable gzip : list byte → list byte.
Variable Sum256 : list byte → list byte.

Lemma foldl_record_dom l st k :
  is_Some ((foldl (record gzip Sum256) st l).1 !! k) ↔
  is_Some (st.1 !! k) ∨ ∃ p content, (p, Readable content) ∈ l ∧ k = "/" +:+ p.
Proof.
  revert st. induction l as [|[q f] l IH]; intros st.
  - split; [by left|]. intros [?|(p & c & Hin & _)]; [done|by apply elem_of_nil in Hin].
  - cbn [foldl]. rewrite IH. unfold record at 1; cbn [fst snd].
    destruct f as [content|e|e]; cbn [fst].
    + rewrite lookup_insert_is_Some'. split.
      * intros [[<-|?]|(p & c & Hin & ->)].
        -- right. exists q, content. split; [by left|done].
        -- by left.
        -- right. exists p, c. split; [by right|done].
      * intros [?|(p & c & [[= -> ->]|Hin]%elem_of_cons & ->)].
        -- left. by right.
        -- left. by left.
        -- right. by exists p, c.
    + split; (intros [?|(p & c & Hin & ->)]; [by left|right; exists p, c; split; [|done]]).
      * by right.
      * by apply elem_of_cons in Hin as [[=]|?].
    + split; (intros [?|(p & c & Hin & ->)]; [by left|right; exists p, c; split; [|done]]).
      * by right.
      * by apply elem_of_cons in Hin as [[=]|?].
Qed.

Lemma foldl_record_store all l st :
  l ⊆ all →
  (∀ h buf, st.2 !! h = Some buf →
     h = contentHash Sum256 buf ∧
     ∃ p content, (p, Readable content) ∈ all ∧ buf = gzip content) →
  ∀ h buf, (foldl (record gzip Sum256) st l).2 !! h = Some buf →
    h = contentHash Sum256 buf ∧
    ∃ p content, (p, Readable content) ∈ all ∧ buf = gzip content.
Proof.
  revert st. induction l as [|[q f] l IH]; intros st Hsub Hst; [done|].
  cbn [foldl]. apply IH.
  - intros x Hx. apply Hsub. by right.
  - unfold record; cbn [fst snd]. destruct f as [content|e|e]; [|done..].
    cbn [snd]. intros h buf. rewrite lookup_insert. case_decide as Hh.
    + intros [= <-]. split; [done|]. exists q, content. split; [|done].
      apply Hsub. by left.
    + apply Hst.
Qed.

End CatalogMore.

Lemma EncodeToString_inj src1 src2 :
  hex.EncodeToString src1 = hex.EncodeToString src2 → src1 = src2.
Proof.
  intros H. apply (f_equal hex.decode) in H.
  rewrite !decode_EncodeToString in H. by injection H.
Qed.

(** X1. After a successful [readFiles] the keys of the manifest are exactly
    the paths of the non-directory entries under the root, each with a
    leading slash: no entry is left out and no directory is a key. *)
Theorem X1_manifest_keys
    (gzip Sum256 : list byte → list byte) loc fbConf pathToHash hashToGzip :
  readFiles gzip Sum256 loc fbConf = Ok (pathToHash, hashToGzip) →
  ∀ k, is_Some (pathToHash !! k) ↔
       ∃ p f, (p, f) ∈ regularFiles (DirFS loc (Public (Hosting fbConf))) ∧
              k = "/" +:+ p.
Proof.
  intros [Hst Hall]%readFiles_ok k.
  apply (f_equal fst) in Hst. cbn [fst] in Hst. rewrite Hst, foldl_record_dom.
  cbn [fst]. rewrite lookup_empty. split.
  - intros [[? [=]]|(p & c & Hin & ->)]. by exists p, (Readable c).
  - intros (p & f & Hin & ->). right.
    rewrite Forall_forall in Hall. destruct (Hall _ Hin) as [c Hc].
    cbn [snd] in Hc. subst f. by exists p, c.
Qed.

Lemma X1_witness :
  is_Some (Demo.manifest !! "/style.css") ↔
  ∃ p f, (p, f) ∈ regularFiles (DirFS (Demo.loc (Ok Demo.site))
                                  (Public (Hosting (Demo.conf [])))) ∧
         "/style.css" = "/" +:+ p.
Proof.
  apply (X1_manifest_keys Demo.gzip Demo.Sum256 (Demo.loc (Ok Demo.site))
           (Demo.conf []) Demo.manifest Demo.store).
  reflexivity.
Defined.

(** X2. After a successful [readFiles] every entry of the content store is
    the compressed content of a file under the root, kept under the hash of
    those very bytes; with distinct paths, the manifest gives that hash to
    the file's path, so the store holds nothing the manifest does not
    name. *)
Theorem X2_store_entries_are_addressed
    (gzip Sum256 : list byte → list byte) loc fbConf pathToHash hashToGzip h buf :
  readFiles gzip Sum256 loc fbConf = Ok (pathToHash, hashToGzip) →
  hashToGzip !! h = Some buf →
  h = hex.EncodeToString (Sum256 buf) ∧
  ∃ p content,
    (p, Readable content) ∈ regularFiles (DirFS loc (Public (Hosting fbConf))) ∧
    buf = gzip content ∧
    (NoDup (regularFiles (DirFS loc (Public (Hosting fbConf)))).*1 →
     pathToHash !! ("/" +:+ p) = Some h).
Proof.
  intros [Hst _]%readFiles_ok Hh.
  pose proof (f_equal fst Hst) as Hm. pose proof (f_equal snd Hst) as Hs.
  cbn [fst snd] in Hm, Hs. rewrite Hs in Hh.
  eapply (foldl_record_store gzip Sum256
            (regularFiles (DirFS loc (Public (Hosting fbConf))))) in Hh
    as (-> & p & content & Hin & ->); [|done|].
  - split; [done|]. exists p, content. split_and!; [done..|].
    intros Hnd. rewrite Hm. by apply foldl_record_lookup.
  - intros h' buf'. cbn [snd]. by rewrite lookup_empty.
Qed.

Lemma X2_witness :
  Demo.H2 = hex.EncodeToString (Demo.Sum256 Demo.style) ∧
  ∃ p content,
    (p, Readable content) ∈ regularFiles (DirFS (Demo.loc (Ok Demo.site))
                                            (Public (Hosting (Demo.conf [])))) ∧
    Demo.style = Demo.gzip content ∧
    (NoDup (regularFiles (DirFS (Demo.loc (Ok Demo.site))
                            (Public (Hosting (Demo.conf []))))).*1 →
     Demo.manifest !! ("/" +:+ p) = Some Demo.H2).
Proof.
  apply (X2_store_entries_are_addressed Demo.gzip Demo.Sum256
           (Demo.loc (Ok Demo.site)) (Demo.conf []) Demo.manifest Demo.store).
  - reflexivity.
  - reflexivity.
Defined.

(** X3. [readFiles] fails with the walk error when the root cannot be
    stat'ed; otherwise it succeeds exactly when every entry the walk reaches
    is a directory that can be read or a file that can be opened and read to
    the end: one bad entry anywhere leaves no catalog at all. *)
Theorem X3_catalog_all_or_nothing
    (gzip Sum256 : list byte → list byte) loc fbConf :
  match DirFS loc (Public (Hosting fbConf)) with
  | Err e =>
      readFiles gzip Sum256 loc fbConf =
      Err ("walk " +:+ Public (Hosting fbConf) +:+ ": " +:+ e)
  | Ok d =>
      (∃ st, readFiles gzip Sum256 loc fbConf = Ok st) ↔ Forall fine (calls "." d)
  end.
Proof.
  unfold readFiles, WalkDir. destruct (DirFS loc _) as [d|e]; [|done].
  rewrite walkDir_calls. split.
  - intros [st Hst].
    destruct (foldM _ _ _) as [st0|] eqn:Hwalk; [|done].
    by eapply foldM_visit_ok_fine.
  - intros Hfine. rewrite foldM_visit_fine by done. by eexists.
Qed.

(** X4. When the walk meets an entry it cannot process, after entries that
    were all fine, [readFiles] returns the error of that entry, wrapped in
    the walk error: for a file that cannot be opened or read the error names
    its path, for a directory that cannot be listed it is the error of the
    listing. Nothing after that entry is looked at. *)
Theorem X4_first_bad_entry_is_reported
    (gzip Sum256 : list byte → list byte) loc fbConf d pre x post e :
  DirFS loc (Public (Hosting fbConf)) = Ok d →
  calls "." d = pre ++ x :: post →
  Forall fine pre →
  failure x = Some e →
  readFiles gzip Sum256 loc fbConf =
  Err ("walk " +:+ Public (Hosting fbConf) +:+ ": " +:+ e).
Proof.
  intros Hd Hcalls Hpre Hx. unfold readFiles, WalkDir. rewrite Hd, walkDir_calls, Hcalls.
  by rewrite (foldM_visit_failure _ _ _ _ _ _ e).
Qed.

Lemma X4_witness :
  readFiles Demo.gzip Demo.Sum256
    (Demo.loc (Ok (Dir [("a.txt", File (Readable (Demo.bytes "a")));
                        ("b.txt", File (ReadFails "input/output error"));
                        ("c", BadDir "open c: permission denied")])))
    (Demo.conf []) =
  Err ("walk " +:+ Public (Hosting (Demo.conf [])) +:+ ": " +:+
       "read from b.txt: input/output error").
Proof.
  apply (X4_first_bad_entry_is_reported Demo.gzip Demo.Sum256 _ (Demo.conf [])
           (Dir [("a.txt", File (Readable (Demo.bytes "a")));
                 ("b.txt", File (ReadFails "input/output error"));
                 ("c", BadDir "open c: permission denied")])
           [(".", Dir [("a.txt", File (Readable (Demo.bytes "a")));
                       ("b.txt", File (ReadFails "input/output error"));
                       ("c", BadDir "open c: permission denied")]);
            ("a.txt", File (Readable (Demo.bytes "a")))]
           ("b.txt", File (ReadFails "input/output error"))
           [("c", BadDir "open c: permission denied")]).
  - reflexivity.
  - reflexivity.
  - repeat constructor.
  - reflexivity.
Defined.

(** X5. With distinct paths, two files get the same hash in the manifest
    exactly when the SHA-256 digests of their compressed contents are equal:
    the hexadecimal rendering neither merges nor splits digests. *)
Theorem X5_same_hash_iff_same_digest
    (gzip Sum256 : list byte → list byte) loc fbConf pathToHash hashToGzip
    p1 p2 content1 content2 :
  readFiles gzip Sum256 loc fbConf = Ok (pathToHash, hashToGzip) →
  NoDup (regularFiles (DirFS loc (Public (Hosting fbConf)))).*1 →
  (p1, Readable content1) ∈ regularFiles (DirFS loc (Public (Hosting fbConf))) →
  (p2, Readable content2) ∈ regularFiles (DirFS loc (Public (Hosting fbConf))) →
  pathToHash !! ("/" +:+ p1) = pathToHash !! ("/" +:+ p2) ↔
  Sum256 (gzip content1) = Sum256 (gzip content2).
Proof.
  intros [Hst _]%readFiles_ok Hnd Hp1 Hp2.
  apply (f_equal fst) in Hst. cbn [fst] in Hst. rewrite Hst.
  rewrite (foldl_record_lookup _ _ _ _ p1 content1) by done.
  rewrite (foldl_record_lookup _ _ _ _ p2 content2) by done.
  unfold contentHash. split.
  - intros [= H]. by apply EncodeToString_inj.
  - by intros ->.
Qed.

Lemma X5_witness :
  Demo.manifest !! ("/" +:+ "index.html") = Demo.manifest !! ("/" +:+ "style.css") ↔
  Demo.Sum256 (Demo.gzip Demo.index) = Demo.Sum256 (Demo.gzip Demo.style).
Proof.
  apply (X5_same_hash_iff_same_digest Demo.gzip Demo.Sum256
           (Demo.loc (Ok Demo.site)) (Demo.conf []) Demo.manifest Demo.store).
  - reflexivity.
  - apply (bool_decide_unpack _). vm_compute. exact I.
  - apply (list_elem_of_lookup_2 _ 1). reflexivity.
  - apply (list_elem_of_lookup_2 _ 2). reflexivity.
Defined.

(** * Further properties of the version's configuration *)

Lemma foldl_headers_lookup (kvs : list HeaderKV) (m0 : gmap string string) k :
  foldl (λ hdrs hdr, <[Key hdr := Value hdr]> hdrs) m0 kvs !! k =
  match headerValue k kvs with
  | Some v => Some v
  | None => m0 !! k
  end.
Proof.
  induction kvs as [|hdr kvs IH] using rev_ind; [done|].
  rewrite foldl_app. cbn [foldl]. unfold headerValue in *.
  rewrite filter_app, filter_cons, filter_nil. case_decide as Hk.
  - rewrite last_snoc. subst k. cbn. apply lookup_insert_eq.
  - rewrite app_nil_r, lookup_insert_ne by done. apply IH.
Qed.

(** X6. The configuration sent with the new version has one header rule for
    each rule of [firebase.json], in the same order and with the rule's
    source as glob; its header map gives every key the value of the last
    entry of the rule with that key, so a repeated key keeps only its last
    value, and a key the rule does not name is absent. *)
Theorem X6_header_rules_last_value_wins fbConf i header :
  Headers (Hosting fbConf) !! i = Some header →
  length (firebasehosting.cHeaders (servingConf fbConf)) =
    length (Headers (Hosting fbConf)) ∧
  ∃ rule,
    firebasehosting.cHeaders (servingConf fbConf) !! i = Some rule ∧
    firebasehosting.Glob rule = hSource header ∧
    ∀ k, firebasehosting.Headers rule !! k = headerValue k (hHeaders header).
Proof.
  intros Hi. unfold servingConf. cbn [firebasehosting.cHeaders].
  split; [apply length_map|].
  eexists. split; [|split].
  - change map with (@fmap list _). rewrite list_lookup_fmap, Hi. reflexivity.
  - done.
  - intros k. cbn [firebasehosting.Headers]. rewrite foldl_headers_lookup.
    rewrite lookup_empty. by destruct (headerValue k _).
Qed.

Lemma X6_witness :
  let rule :=
    {| hSource := "**/*.js";
       hHeaders := [{| Key := "Cache-Control"; Value := "no-cache" |};
                    {| Key := "X-Frame-Options"; Value := "DENY" |};
                    {| Key := "Cache-Control"; Value := "max-age=60" |}] |} in
  let fbConf :=
    {| Hosting := {| Site := "demo"; Public := "public"; Ignore := [];
                     CleanURLs := true; TrailingSlash := false;
                     Headers := [rule]; Redirects := [] |} |} in
  headerValue "Cache-Control" (hHeaders rule) = Some "max-age=60" ∧
  length (firebasehosting.cHeaders (servingConf fbConf)) =
    length (Headers (Hosting fbConf)) ∧
  ∃ sent,
    firebasehosting.cHeaders (servingConf fbConf) !! 0 = Some sent ∧
    firebasehosting.Glob sent = hSource rule ∧
    ∀ k, firebasehosting.Headers sent !! k = headerValue k (hHeaders rule).
Proof.
  split; [reflexivity|].
  apply (X6_header_rules_last_value_wins
           {| Hosting := {| Site := "demo"; Public := "public"; Ignore := [];
                            CleanURLs := true; TrailingSlash := false;
                            Headers := [_]; Redirects := [] |} |} 0).
  reflexivity.
Defined.

(** * Further properties of the upload *)

Section UploadMore.
Variable NewRequest : string → option error.
Variable url : string.

Lemma take_middle {A} (pre : list A) x post :
  take (S (length pre)) (pre ++ x :: post) = pre ++ [x].
Proof. induction pre as [|y pre IH]; [done|]. cbn. by rewrite IH. Qed.

Lemma endpoints_app tr1 tr2 : endpoints (tr1 ++ tr2) = endpoints tr1 ++ endpoints tr2.
Proof. apply omap_app. Qed.

Lemma endpoints_posts store hs rs :
  length rs = length hs →
  endpoints (posts url store hs rs) = (λ h, url +:+ "/" +:+ h) <$> hs.
Proof.
  revert store rs. induction hs as [|h hs IH]; intros store [|r rs] [=]; [done|].
  cbn. f_equal. by apply IH.
Qed.

Lemma uploaded_endpoints version hs store r evs :
  uploaded NewRequest version url hs store r evs →
  ∃ n, endpoints evs = (λ h, url +:+ "/" +:+ h) <$> take n hs ∧
       ((∃ ev, ev ∈ evs ∧ isPatch ev) → n = length hs).
Proof.
  destruct 1 as [pre h post rs e lst -> Hlen Hall Hstop|rs a Hlen Hall _].
  - rewrite endpoints_app, endpoints_posts by done.
    assert (∀ ev, ev ∈ posts url store pre rs ++ lst → ¬ isPatch ev) as Hnp.
    { intros ev [Hin|Hin]%elem_of_app Hev.
      - pose proof (posts_isPost url store pre rs) as Hp.
        rewrite Forall_forall in Hp. apply Hp in Hin. by destruct ev.
      - apply stopped_isPost in Hstop. rewrite Forall_forall in Hstop.
        apply Hstop in Hin. by destruct ev. }
    destruct Hstop as [e0 _|e0 _|res _ _].
    + exists (length pre). split.
      * by rewrite take_app_length, app_nil_r.
      * intros (ev & Hin & Hev). by destruct (Hnp ev).
    + exists (S (length pre)). split.
      * rewrite take_middle, fmap_app. by cbn.
      * intros (ev & Hin & Hev). by destruct (Hnp ev).
    + exists (S (length pre)). split.
      * rewrite take_middle, fmap_app. by cbn.
      * intros (ev & Hin & Hev). by destruct (Hnp ev).
  - exists (length hs). split; [|done].
    rewrite endpoints_app, endpoints_posts, firstn_all by done.
    cbn. by rewrite app_nil_r.
Qed.

(** A transport failure is the last thing [uploadFiles] sees. *)
Lemma uploaded_transport version hs store r evs i ep body e0 :
  uploaded NewRequest version url hs store r evs →
  evs !! i = Some (Post ep body (Err e0)) →
  ∃ h, hs !! i = Some h ∧ ep = url +:+ "/" +:+ h ∧
       r = Err (("upload for " +:+ h +:+ ": ") +:+ e0) ∧
       length evs = S i.
Proof.
  assert (∀ l rs, posts url store l rs !! i = Some (Post ep body (Err e0)) → False)
    as Hposts.
  { by intros l rs (h & r' & _ & _ & [=])%posts_lookup. }
  destruct 1 as [pre h post rs e lst -> Hlen Hall Hstop|rs a Hlen Hall _]; intros Hi.
  - pose proof (posts_length url store pre rs Hlen) as Hplen.
    apply lookup_app_Some in Hi as [Hi|[Hge Hi]]; [by apply Hposts in Hi|].
    rewrite Hplen in Hge, Hi.
    destruct Hstop as [e1 Hreq|e1 Hreq|res' Hreq Hres']; [done| |].
    + destruct (i - length pre) eqn:Hj; [|done]. injection Hi as <- <- <-.
      assert (i = length pre) as -> by lia.
      exists h. split_and!; try done.
      * by rewrite list_lookup_middle.
      * rewrite length_app, Hplen. simpl. lia.
    + by destruct (i - length pre).
  - pose proof (posts_length url store hs rs Hlen) as Hplen.
    apply lookup_app_Some in Hi as [Hi|[Hge Hi]]; [by apply Hposts in Hi|].
    by destruct (i - length (posts url store hs rs)) as [|[|]].
Qed.

(** What the bodies carry, for a property [P] of the buffers of the store
    that holds until a buffer is read. *)
Lemma drain_keeps (P : string → list byte → Prop) store h :
  (∀ h' buf, store !! h' = Some buf → buf = [] ∨ P h' buf) →
  ∀ h' buf, drain h store !! h' = Some buf → buf = [] ∨ P h' buf.
Proof.
  intros Hst h' buf. unfold drain. rewrite lookup_alter. case_decide as Hh.
  - subst h'. destruct (store !! h); [|done]. intros [= <-]. by left.
  - apply Hst.
Qed.

Lemma foldl_drain_keeps (P : string → list byte → Prop) hs store :
  (∀ h' buf, store !! h' = Some buf → buf = [] ∨ P h' buf) →
  ∀ h' buf, foldl (flip drain) store hs !! h' = Some buf → buf = [] ∨ P h' buf.
Proof.
  revert store. induction hs as [|h hs IH]; intros store Hst; [done|].
  cbn [foldl]. apply IH. by apply drain_keeps.
Qed.

Lemma posts_bodies (P : string → list byte → Prop) store hs rs ep buf a :
  (∀ h' buf, store !! h' = Some buf → buf = [] ∨ P h' buf) →
  Post ep (Some buf) a ∈ posts url store hs rs →
  buf = [] ∨ ∃ h, h ∈ hs ∧ ep = url +:+ "/" +:+ h ∧ P h buf.
Proof.
  revert store rs. induction hs as [|h hs IH]; intros store [|r rs] Hst; simpl;
    try (intros H; by apply elem_of_nil in H).
  intros [[= -> Hb _]|Hin]%elem_of_cons.
  - symmetry in Hb. destruct (Hst _ _ Hb) as [?|?]; [by left|].
    right. exists h. split; [by left|done].
  - destruct (IH (drain h store) rs (drain_keeps P store h Hst) Hin)
      as [?|(h' & ? & ? & ?)]; [by left|].
    right. exists h'. split; [by right|done].
Qed.

Lemma uploaded_bodies (P : string → list byte → Prop) version hs store r evs ep buf a :
  (∀ h' buf, store !! h' = Some buf → buf = [] ∨ P h' buf) →
  uploaded NewRequest version url hs store r evs →
  Post ep (Some buf) a ∈ evs →
  buf = [] ∨ ∃ h, h ∈ hs ∧ ep = url +:+ "/" +:+ h ∧ P h buf.
Proof.
  intros Hst.
  destruct 1 as [pre h post rs e lst -> Hlen Hall Hstop|rs a' Hlen Hall _].
  - intros [Hin|Hin]%elem_of_app.
    + destruct (posts_bodies P store pre rs ep buf a Hst Hin)
        as [?|(h' & ? & ? & ?)]; [by left|].
      right. exists h'. split; [|done]. apply elem_of_app. by left.
    + assert (foldl (flip drain) store pre !! h = Some buf ∧ ep = url +:+ "/" +:+ h)
        as [Hb ->].
      { destruct Hstop as [e0 _|e0 _|res _ _].
        - by apply elem_of_nil in Hin.
        - by apply list_elem_of_singleton in Hin as [= -> <- _].
        - by apply list_elem_of_singleton in Hin as [= -> <- _]. }
      destruct (foldl_drain_keeps P pre store Hst _ _ Hb) as [?|?]; [by left|].
      right. exists h. split; [|done]. apply elem_of_app. right. by left.
  - intros [Hin|Hin]%elem_of_app.
    + by apply (posts_bodies P store hs rs ep buf a Hst).
    + by apply list_elem_of_singleton in Hin.
Qed.

End UploadMore.

(** X7. [uploadFiles] posts in the order of the required list and stops at
    the first hash that fails: the endpoints it posts to are, in order, the
    upload URL followed by a slash and the hash, for an initial stretch of
    the list, never anything else; and the finalizing patch is only sent
    once the whole list has been posted. *)
Theorem X7_posts_follow_the_list
    NewRequest svc version hs url (store : gmap string (list byte)) tr r evs :
  uploadFiles NewRequest svc version hs url store tr = (r, tr ++ evs) →
  ∃ n, endpoints evs = (λ h, url +:+ "/" +:+ h) <$> take n hs ∧
       ((∃ ev, ev ∈ evs ∧ isPatch ev) → n = length hs).
Proof.
  intros (evs' & ->%app_inv_head & Hup)%uploadFiles_inv.
  by eapply uploaded_endpoints.
Qed.

Lemma X7_witness :
  ∃ n,
    endpoints
      [Post ("https://upload.test/files/" +:+ Demo.H1) (Some Demo.index)
         (Ok Demo.err500)] =
    (λ h, "https://upload.test/files" +:+ "/" +:+ h) <$> take n [Demo.H1; Demo.H2] ∧
    ((∃ ev, ev ∈ [Post ("https://upload.test/files/" +:+ Demo.H1)
                    (Some Demo.index) (Ok Demo.err500)] ∧ isPatch ev) →
     n = length [Demo.H1; Demo.H2]).
Proof.
  apply (X7_posts_follow_the_list Demo.NewRequest
           (Demo.svc [] Demo.err500 "FINALIZED") "v1" [Demo.H1; Demo.H2]
           "https://upload.test/files" Demo.store []
           (Err ("unexpected response for upload " +:+ Demo.H1 +:+ ": " +:+
                 "500 Internal Server Error"))).
  vm_compute. reflexivity.
Defined.

(** X8. An upload whose request fails in transport (no response at all)
    ends [uploadFiles] at once: it returns the error that names the hash and
    wraps the transport error, the failed request is the last event, and so
    no later hash is posted and no patch is sent. *)
Theorem X8_transport_failure_aborts
    NewRequest svc version hs url (store : gmap string (list byte)) tr r evs
    i ep body e0 :
  uploadFiles NewRequest svc version hs url store tr = (r, tr ++ evs) →
  evs !! i = Some (Post ep body (Err e0)) →
  ∃ h, hs !! i = Some h ∧ ep = url +:+ "/" +:+ h ∧
       r = Err (("upload for " +:+ h +:+ ": ") +:+ e0) ∧
       length evs = S i.
Proof.
  intros (evs' & ->%app_inv_head & Hup)%uploadFiles_inv Hi.
  by eapply uploaded_transport.
Qed.

Lemma X8_witness :
  let out := uploadFiles Demo.NewRequest Faulty.resets "v1" [Demo.H1; Demo.H2]
               "https://upload.test/files" Demo.store [] in
  out.2 !! 1 = Some (Post ("https://upload.test/files/" +:+ Demo.H2)
                       (Some Demo.style) (Err "connection reset")) ∧
  ∃ h, [Demo.H1; Demo.H2] !! 1 = Some h ∧
       "https://upload.test/files/" +:+ Demo.H2 =
         "https://upload.test/files" +:+ "/" +:+ h ∧
       out.1 = Err (("upload for " +:+ h +:+ ": ") +:+ "connection reset") ∧
       length out.2 = 2.
Proof.
  split; [reflexivity|].
  eapply (X8_transport_failure_aborts Demo.NewRequest Faulty.resets "v1"
            [Demo.H1; Demo.H2] "https://upload.test/files" Demo.store [] _ _ 1 _
            (Some Demo.style) "connection reset").
  - vm_compute. reflexivity.
  - reflexivity.
Defined.

(** * Further properties of the run *)

Lemma isPost_phases l : Forall isPost l → phase <$> l = replicate (length l) 2.
Proof.
  induction 1 as [|ev l Hev _ IH]; [done|]. cbn. rewrite IH. by destruct ev.
Qed.

Lemma uploaded_phases NewRequest version url hs store r evs :
  uploaded NewRequest version url hs store r evs →
  ∃ k, phase <$> evs = replicate k 2 ∨ phase <$> evs = replicate k 2 ++ [3].
Proof.
  destruct 1 as [pre h post rs e lst _ _ _ Hstop|rs a _ _ _].
  - eexists. left. apply isPost_phases, Forall_app. split.
    + apply posts_isPost.
    + by eapply stopped_isPost.
  - eexists. right. rewrite fmap_app. f_equal. apply isPost_phases, posts_isPost.
Qed.

Section RunMore.
Variable Unmarshal : list byte → result FirebaseJSON.
Variable gzip : list byte → list byte.
Variable Sum256 : list byte → list byte.
Variable NewRequest : string → option error.
Variable loc : Local.
Variable svc : Remote.

(** A release is the last call of its run, and its answer decides the
    result. *)
Lemma ran_release_inv r tr site version a :
  ran Unmarshal gzip Sum256 NewRequest loc svc r tr →
  ReleasesCreate site version a ∈ tr →
  r = wrap ("release " +:+ version +:+ ": ") a ∧
  last tr = Some (ReleasesCreate site version a).
Proof.
  destruct 1 as [e _|fbConf e _ _|fbConf e _ _ _|fbConf e _ _
                |fbConf v e _ _ _|fbConf v files e _ _ _ _
                |fbConf v files required e evs _ _ _ _ Hup
                |fbConf v files required evs a' _ _ _ _ Hup];
    intros Hin; early_trace.
  - exfalso. by eapply uploaded_no_release.
  - apply elem_of_app in Hin as [Hin|Hin%list_elem_of_singleton].
    + exfalso. by eapply uploaded_no_release.
    + injection Hin as -> -> ->. split; [done|].
      by rewrite !app_comm_cons, last_snoc.
Qed.

Lemma ran_ok tr :
  ran Unmarshal gzip Sum256 NewRequest loc svc (Ok tt) tr →
  ∃ fbConf version files required rs,
    prepared Unmarshal loc fbConf ∧
    readFiles gzip Sum256 loc fbConf = Ok files ∧
    length rs = length (firebasehosting.UploadRequiredHashes required) ∧
    Forall accepted rs ∧
    tr = [created fbConf version; populated version files required] ++
         posts (firebasehosting.UploadUrl required) files.2
           (firebasehosting.UploadRequiredHashes required) rs ++
         [VersionsPatch version "FINALIZED" (Ok "FINALIZED");
          ReleasesCreate (siteOf fbConf) version (Ok tt)].
Proof.
  inversion 1 as [| | | | | | |fbConf v files required evs a Hprep _ Hfiles _ Hup Hr];
    subst.
  destruct a as [[]|]; [|done].
  apply uploaded_ok in Hup as (rs & Hlen & Hall & ->).
  exists fbConf, v, files, required, rs. split_and!; try done.
  by rewrite <-!app_assoc.
Qed.

End RunMore.

(** X9. The calls of a run follow the protocol: one creation of the version,
    then one reconciliation, then the uploads, then one finalizing patch,
    then one release; a run may stop anywhere along this line, but it never
    skips a step, repeats one (other than uploading) or goes back. *)
Theorem X9_calls_follow_the_protocol
    Unmarshal gzip Sum256 NewRequest loc svc r tr :
  run Unmarshal gzip Sum256 NewRequest loc svc [] = (r, tr) →
  ∃ k, phase <$> tr `prefix_of` [0; 1] ++ replicate k 2 ++ [3; 4].
Proof.
  intros Hran%run_ran.
  destruct Hran as [e _|fbConf e _ _|fbConf e _ _ _|fbConf e _ _
                   |fbConf v e _ _ _|fbConf v files e _ _ _ _
                   |fbConf v files required e evs _ _ _ _ Hup
                   |fbConf v files required evs a _ _ _ _ Hup].
  - exists 0. apply prefix_nil.
  - exists 0. apply prefix_nil.
  - exists 0. apply prefix_nil.
  - exists 0. by exists [1; 3; 4].
  - exists 0. by exists [1; 3; 4].
  - exists 0. by exists [3; 4].
  - apply uploaded_phases in Hup as [k [Hk|Hk]]; exists k;
      rewrite fmap_app, Hk; apply prefix_app.
    + by exists [3; 4].
    + exists [4]. by rewrite <-app_assoc.
  - apply uploaded_ok in Hup as (rs & _ & _ & ->).
    exists (length (posts (firebasehosting.UploadUrl required) files.2
                      (firebasehosting.UploadRequiredHashes required) rs)).
    rewrite !fmap_app, (isPost_phases (posts _ _ _ _)) by apply posts_isPost.
    cbn. by rewrite <-app_assoc.
Qed.

Lemma X9_witness :
  ∃ k,
    phase <$>
      [VersionsCreate "sites/demo" (servingConf (Demo.conf []))
         (Ok "sites/demo/versions/1");
       PopulateFiles "sites/demo/versions/1" Demo.manifest
         (Ok {| firebasehosting.UploadRequiredHashes := [Demo.H1; Demo.H2];
                firebasehosting.UploadUrl := "https://upload.test/files" |});
       Post ("https://upload.test/files/" +:+ Demo.H1) (Some Demo.index)
         (Ok Demo.ok200);
       Post ("https://upload.test/files/" +:+ Demo.H2) (Some Demo.style)
         (Err "connection reset")]
    `prefix_of` [0; 1] ++ replicate k 2 ++ [3; 4].
Proof.
  apply (X9_calls_follow_the_protocol (Demo.Unmarshal []) Demo.gzip Demo.Sum256
           Demo.NewRequest (Demo.loc (Ok Demo.site)) Faulty.resets
           (Err (("upload for " +:+ Demo.H2 +:+ ": ") +:+ "connection reset"))).
  vm_compute. reflexivity.
Defined.

Lemma uploaded_events NewRequest version url hs store r evs ev :
  uploaded NewRequest version url hs store r evs → ev ∈ evs →
  isPost ev ∨ ∃ a, ev = VersionsPatch version "FINALIZED" a.
Proof.
  assert (∀ l rs, ev ∈ posts url store l rs → isPost ev) as Hposts.
  { intros l rs Hin. pose proof (posts_isPost url store l rs) as Hall.
    rewrite Forall_forall in Hall. by apply Hall. }
  destruct 1 as [pre h post rs e lst _ _ _ Hstop|rs a _ _ _];
    intros [Hin|Hin]%elem_of_app.
  - left. by eapply Hposts.
  - left. apply stopped_isPost in Hstop. rewrite Forall_forall in Hstop.
    by apply Hstop.
  - left. by eapply Hposts.
  - right. apply list_elem_of_singleton in Hin. by exists a.
Qed.

(** X10. Every call of a run is tied to the same site and version: the
    version is created under ["sites/"] followed by the configured site,
    with the serving configuration of [firebase.json]; the reconciliation
    carries the manifest that [readFiles] returned for the configured root,
    and it, the patch (which asks for the status FINALIZED) and the release
    all name the version the service returned on creation; the release is
    made under the site the version was created under. *)
Theorem X10_calls_share_site_and_version
    Unmarshal gzip Sum256 NewRequest loc svc r tr ev :
  run Unmarshal gzip Sum256 NewRequest loc svc [] = (r, tr) →
  ev ∈ tr →
  ∃ fbConf a,
    readConfig Unmarshal loc "firebase.json" = Ok fbConf ∧
    tr !! 0 = Some (VersionsCreate ("sites/" +:+ Site (Hosting fbConf))
                      (servingConf fbConf) a) ∧
    match ev with
    | VersionsCreate _ _ _ => tr !! 0 = Some ev
    | PopulateFiles version files _ =>
        a = Ok version ∧
        ∃ hashToGzip, readFiles gzip Sum256 loc fbConf = Ok (files, hashToGzip)
    | Post _ _ _ => True
    | VersionsPatch version status _ => a = Ok version ∧ status = "FINALIZED"
    | ReleasesCreate site version _ =>
        a = Ok version ∧ site = "sites/" +:+ Site (Hosting fbConf)
    end.
Proof.
  intros Hran%run_ran Hin.
  destruct Hran as [e _|fbConf e _ _|fbConf e _ _ _|fbConf e [Hconf _] _
                   |fbConf v e [Hconf _] _ _|fbConf v [m s] e [Hconf _] _ Hfiles _
                   |fbConf v [m s] required e evs [Hconf _] _ Hfiles _ Hup
                   |fbConf v [m s] required evs a [Hconf _] _ Hfiles _ Hup];
    try (by apply elem_of_nil in Hin);
    unfold created, populated, siteOf in *; cbn [app fst snd] in *;
    (eexists fbConf, _; split; [exact Hconf|]; split; [reflexivity|]).
  - by apply list_elem_of_singleton in Hin as ->.
  - by apply list_elem_of_singleton in Hin as ->.
  - apply elem_of_cons in Hin as [->|Hin%list_elem_of_singleton]; [done|].
    subst ev. split; [done|]. by exists s.
  - apply elem_of_cons in Hin as [->|Hin]; [done|].
    apply elem_of_cons in Hin as [->|Hin]; [split; [done|]; by exists s|].
    destruct (uploaded_events _ _ _ _ _ _ _ _ Hup Hin) as [Hev|[a' ->]];
      [by destruct ev|done].
  - apply elem_of_cons in Hin as [->|Hin]; [done|].
    apply elem_of_cons in Hin as [->|Hin]; [split; [done|]; by exists s|].
    apply elem_of_app in Hin as [Hin|Hin%list_elem_of_singleton].
    + destruct (uploaded_events _ _ _ _ _ _ _ _ Hup Hin) as [Hev|[a' ->]];
        [by destruct ev|done].
    + by subst ev.
Qed.

Lemma X10_witness :
  ∃ fbConf a,
    readConfig (Demo.Unmarshal []) (Demo.loc (Ok Demo.site)) "firebase.json" =
      Ok fbConf ∧
    [VersionsCreate "sites/demo" (servingConf (Demo.conf []))
       (Ok "sites/demo/versions/1");
     PopulateFiles "sites/demo/versions/1" Demo.manifest
       (Ok {| firebasehosting.UploadRequiredHashes := [Demo.H2];
              firebasehosting.UploadUrl := "https://upload.test/files" |});
     Post ("https://upload.test/files/" +:+ Demo.H2) (Some Demo.style)
       (Ok Demo.ok200);
     VersionsPatch "sites/demo/versions/1" "FINALIZED" (Ok "FINALIZED");
     ReleasesCreate "sites/demo" "sites/demo/versions/1"
       (Err "permission denied")] !! 0 =
      Some (VersionsCreate ("sites/" +:+ Site (Hosting fbConf))
              (servingConf fbConf) a) ∧
    a = Ok "sites/demo/versions/1" ∧
    "sites/demo" = "sites/" +:+ Site (Hosting fbConf).
Proof.
  apply (X10_calls_share_site_and_version (Demo.Unmarshal []) Demo.gzip
           Demo.Sum256 Demo.NewRequest (Demo.loc (Ok Demo.site)) Faulty.unreleased
           (Err (("release " +:+ "sites/demo/versions/1" +:+ ": ") +:+
                 "permission denied"))
           _ (ReleasesCreate "sites/demo" "sites/demo/versions/1"
                (Err "permission denied"))).
  - vm_compute. reflexivity.
  - apply (list_elem_of_lookup_2 _ 4). reflexivity.
Defined.

(** X11. A run that returns no error has made the whole deployment: the
    configuration was read, the catalog built, the version created, the
    manifest reconciled, every required hash posted in order and answered
    200, the version patched and answered FINALIZED, and the release
    created without error, with nothing else in between. *)
Theorem X11_success_is_a_complete_deployment
    Unmarshal gzip Sum256 NewRequest loc svc tr :
  run Unmarshal gzip Sum256 NewRequest loc svc [] = (Ok tt, tr) →
  ∃ fbConf version files required rs,
    readConfig Unmarshal loc "firebase.json" = Ok fbConf ∧
    readFiles gzip Sum256 loc fbConf = Ok files ∧
    length rs = length (firebasehosting.UploadRequiredHashes required) ∧
    Forall accepted rs ∧
    tr = [VersionsCreate ("sites/" +:+ Site (Hosting fbConf)) (servingConf fbConf)
            (Ok version);
          PopulateFiles version files.1 (Ok required)] ++
         posts (firebasehosting.UploadUrl required) files.2
           (firebasehosting.UploadRequiredHashes required) rs ++
         [VersionsPatch version "FINALIZED" (Ok "FINALIZED");
          ReleasesCreate ("sites/" +:+ Site (Hosting fbConf)) version (Ok tt)].
Proof.
  intros Hran%run_ran.
  apply ran_ok in Hran
    as (fbConf & version & files & required & rs & [Hconf _] & Hfiles & Hlen & Hall & ->).
  by exists fbConf, version, files, required, rs.
Qed.

Lemma X11_witness :
  ∃ fbConf version files required rs,
    readConfig (Demo.Unmarshal []) (Demo.loc (Ok Demo.site)) "firebase.json" =
      Ok fbConf ∧
    readFiles Demo.gzip Demo.Sum256 (Demo.loc (Ok Demo.site)) fbConf = Ok files ∧
    length rs = length (firebasehosting.UploadRequiredHashes required) ∧
    Forall accepted rs ∧
    (run (Demo.Unmarshal []) Demo.gzip Demo.Sum256 Demo.NewRequest
       (Demo.loc (Ok Demo.site)) (Demo.svc [Demo.H1] Demo.ok200 "FINALIZED") []).2 =
      [VersionsCreate ("sites/" +:+ Site (Hosting fbConf)) (servingConf fbConf)
         (Ok version);
       PopulateFiles version files.1 (Ok required)] ++
      posts (firebasehosting.UploadUrl required) files.2
        (firebasehosting.UploadRequiredHashes required) rs ++
      [VersionsPatch version "FINALIZED" (Ok "FINALIZED");
       ReleasesCreate ("sites/" +:+ Site (Hosting fbConf)) version (Ok tt)].
Proof.
  apply (X11_success_is_a_complete_deployment (Demo.Unmarshal []) Demo.gzip
           Demo.Sum256 Demo.NewRequest (Demo.loc (Ok Demo.site))
           (Demo.svc [Demo.H1] Demo.ok200 "FINALIZED")).
  vm_compute. reflexivity.
Defined.

Lemma readFiles_store (gzip Sum256 : list byte → list byte) loc fbConf files h buf :
  readFiles gzip Sum256 loc fbConf = Ok files →
  files.2 !! h = Some buf →
  h = contentHash Sum256 buf ∧
  ∃ p content,
    (p, Readable content) ∈ regularFiles (DirFS loc (Public (Hosting fbConf))) ∧
    buf = gzip content.
Proof.
  intros [Hst _]%readFiles_ok Hh. rewrite Hst in Hh.
  eapply (foldl_record_store gzip Sum256
            (regularFiles (DirFS loc (Public (Hosting fbConf))))); [done| |done].
  intros h' buf'. cbn [snd]. by rewrite lookup_empty.
Qed.

(** X12. Whatever a run uploads is real content under its own address: a
    POST with a non-empty body carries the compressed bytes of a file under
    the public root, and goes to the upload URL of the reconciliation
    followed by a slash and the hash of exactly those bytes, a hash that the
    reconciliation asked for. *)
Theorem X12_uploads_are_content_addressed
    Unmarshal gzip Sum256 NewRequest loc svc r tr ep buf a :
  run Unmarshal gzip Sum256 NewRequest loc svc [] = (r, tr) →
  Post ep (Some buf) a ∈ tr →
  buf ≠ [] →
  ∃ fbConf version files required p content,
    readConfig Unmarshal loc "firebase.json" = Ok fbConf ∧
    tr !! 1 = Some (PopulateFiles version files (Ok required)) ∧
    (p, Readable content) ∈ regularFiles (DirFS loc (Public (Hosting fbConf))) ∧
    buf = gzip content ∧
    hex.EncodeToString (Sum256 buf) ∈ firebasehosting.UploadRequiredHashes required ∧
    ep = firebasehosting.UploadUrl required +:+ "/" +:+
         hex.EncodeToString (Sum256 buf).
Proof.
  intros Hran%run_ran Hin Hbuf.
  assert (∀ fbConf version files required r' evs,
            readConfig Unmarshal loc "firebase.json" = Ok fbConf →
            readFiles gzip Sum256 loc fbConf = Ok files →
            uploaded NewRequest version (firebasehosting.UploadUrl required)
              (firebasehosting.UploadRequiredHashes required) files.2 r' evs →
            Post ep (Some buf) a ∈ evs →
            ∃ p content,
              (p, Readable content)
              ∈ regularFiles (DirFS loc (Public (Hosting fbConf))) ∧
              buf = gzip content ∧
              hex.EncodeToString (Sum256 buf)
              ∈ firebasehosting.UploadRequiredHashes required ∧
              ep = firebasehosting.UploadUrl required +:+ "/" +:+
                   hex.EncodeToString (Sum256 buf)) as Hbody.
  { intros fbConf version files required r' evs Hconf Hfiles Hup Hev.
    destruct (uploaded_bodies NewRequest (firebasehosting.UploadUrl required)
                (λ h b, h = contentHash Sum256 b ∧
                        ∃ p content,
                          (p, Readable content)
                          ∈ regularFiles (DirFS loc (Public (Hosting fbConf))) ∧
                          b = gzip content)
                version (firebasehosting.UploadRequiredHashes required) files.2
                r' evs ep buf a)
      as [?|(h & Hh & -> & -> & p & content & Hp & ->)]; [|done..| |].
    - intros h b Hb. right. by eapply readFiles_store.
    - done.
    - by exists p, content. }
  destruct Hran as [e _|fbConf e _ _|fbConf e _ _ _|fbConf e _ _
                   |fbConf v e _ _ _|fbConf v files e _ _ _ _
                   |fbConf v files required e evs [Hconf _] _ Hfiles _ Hup
                   |fbConf v files required evs a' [Hconf _] _ Hfiles _ Hup];
    early_trace.
  - destruct (Hbody _ _ _ _ _ _ Hconf Hfiles Hup Hin) as (p & content & ? & ? & ? & ?).
    by exists fbConf, v, files.1, required, p, content.
  - apply elem_of_app in Hin as [Hin|Hin%list_elem_of_singleton]; [|done].
    destruct (Hbody _ _ _ _ _ _ Hconf Hfiles Hup Hin) as (p & content & ? & ? & ? & ?).
    by exists fbConf, v, files.1, required, p, content.
Qed.

Lemma X12_witness :
  ∃ fbConf version files required p content,
    readConfig (Demo.Unmarshal []) (Demo.loc (Ok Demo.site)) "firebase.json" =
      Ok fbConf ∧
    (run (Demo.Unmarshal []) Demo.gzip Demo.Sum256 Demo.NewRequest
       (Demo.loc (Ok Demo.site)) (Demo.svc [Demo.H1; Demo.H1] Demo.ok200 "FINALIZED")
       []).2 !! 1 = Some (PopulateFiles version files (Ok required)) ∧
    (p, Readable content)
    ∈ regularFiles (DirFS (Demo.loc (Ok Demo.site)) (Public (Hosting fbConf))) ∧
    Demo.index = Demo.gzip content ∧
    hex.EncodeToString (Demo.Sum256 Demo.index)
    ∈ firebasehosting.UploadRequiredHashes required ∧
    "https://upload.test/files/" +:+ Demo.H1 =
      firebasehosting.UploadUrl required +:+ "/" +:+
      hex.EncodeToString (Demo.Sum256 Demo.index).
Proof.
  apply (X12_uploads_are_content_addressed (Demo.Unmarshal []) Demo.gzip
           Demo.Sum256 Demo.NewRequest (Demo.loc (Ok Demo.site))
           (Demo.svc [Demo.H1; Demo.H1] Demo.ok200 "FINALIZED") (Ok tt) _
           ("https://upload.test/files/" +:+ Demo.H1) Demo.index (Ok Demo.ok200)).
  - vm_compute. reflexivity.
  - apply (list_elem_of_lookup_2 _ 2). reflexivity.
  - discriminate.
Defined.

(** X13. A run that ends in an error after the service answered the patch
    with FINALIZED failed in the release and nowhere else: the error is the
    release error for that version, and the failed release is the last
    call. The version is then finalized but not released. *)
Theorem X13_finalized_then_error_is_release_error
    Unmarshal gzip Sum256 NewRequest loc svc e tr version sent :
  run Unmarshal gzip Sum256 NewRequest loc svc [] = (Err e, tr) →
  VersionsPatch version sent (Ok "FINALIZED") ∈ tr →
  ∃ site e0,
    e = ("release " +:+ version +:+ ": ") +:+ e0 ∧
    last tr = Some (ReleasesCreate site version (Err e0)).
Proof.
  intros Hran%run_ran Hin.
  inversion Hran as [| | | | |
                     |fbConf v files required e' evs _ _ _ _ Hup
                     |fbConf v files required evs a _ _ _ _ Hup Hr];
    subst; early_trace.
  - destruct (uploaded_patch _ _ _ _ _ _ _ _ Hup Hin I) as (a & [= -> -> <-] & Hr & _).
    unfold finalized in Hr. by case_decide.
  - apply elem_of_app in Hin as [Hin|Hin%list_elem_of_singleton]; [|done].
    destruct (uploaded_patch _ _ _ _ _ _ _ _ Hup Hin I) as (a' & [= -> -> <-] & _).
    destruct a as [[]|e0]; [done|]. injection Hr as <-.
    exists (siteOf fbConf), e0. split; [done|].
    by rewrite !app_comm_cons, last_snoc.
Qed.

Lemma X13_witness :
  let out := run (Demo.Unmarshal []) Demo.gzip Demo.Sum256 Demo.NewRequest
               (Demo.loc (Ok Demo.site)) Faulty.unreleased [] in
  ∃ site e0,
    "release sites/demo/versions/1: permission denied" =
      ("release " +:+ "sites/demo/versions/1" +:+ ": ") +:+ e0 ∧
    last out.2 = Some (ReleasesCreate site "sites/demo/versions/1" (Err e0)).
Proof.
  apply (X13_finalized_then_error_is_release_error (Demo.Unmarshal []) Demo.gzip
           Demo.Sum256 Demo.NewRequest (Demo.loc (Ok Demo.site)) Faulty.unreleased
           _ _ _ "FINALIZED").
  - vm_compute. reflexivity.
  - apply (list_elem_of_lookup_2 _ 3). reflexivity.
Defined.

(** X14. When the command line is accepted, the process exits with status 0
    or 1; it exits with 0 exactly when the last call of the run is a release
    that the service answered without error, and then it has written
    nothing to the standard error; with status 1 it has written the run's
    error and a newline, and nothing else. *)
Theorem X14_exit_status_tells_release
    flagParse Unmarshal gzip Sum256 NewRequest args loc svc ex tr :
  flagParse args = None →
  main flagParse Unmarshal gzip Sum256 NewRequest args loc svc = (ex, tr) →
  (code ex = 0%Z ∨ code ex = 1%Z) ∧
  (code ex = 0%Z ↔
   ∃ site version, last tr = Some (ReleasesCreate site version (Ok tt))) ∧
  (code ex = 0%Z → stderr ex = "") ∧
  (code ex = 1%Z →
   ∃ e, run Unmarshal gzip Sum256 NewRequest loc svc [] = (Err e, tr) ∧
        stderr ex = e +:+ newline).
Proof.
  intros Hflags. unfold main. rewrite Hflags.
  destruct (run _ _ _ _ _ _ _) as [[[]|e] tr'] eqn:Hrun; intros [= <- <-];
    cbn [code stderr]; pose proof (run_ran _ _ _ _ _ _ _ _ Hrun) as Hran.
  - split_and!; [by left| |done|done].
    split; [intros _|done].
    apply ran_ok in Hran as (fbConf & v & files & required & rs & _ & _ & _ & _ & ->).
    exists (siteOf fbConf), v. apply last_Some.
    eexists (_ :: _ :: posts _ _ _ _ ++ [_]). cbn [app]. by rewrite <-app_assoc.
  - split_and!; [by right| |done|intros _; by exists e].
    split; [done|]. intros (site & v & Hlast). exfalso.
    apply last_Some_elem_of in Hlast.
    by destruct (ran_release_inv _ _ _ _ _ _ _ _ _ _ _ Hran Hlast) as [[=] _].
Qed.

Lemma X14_witness :
  let out := main (λ _, None) (Demo.Unmarshal []) Demo.gzip Demo.Sum256
               Demo.NewRequest [] (Demo.loc (Ok Demo.site)) Faulty.unreleased in
  (code out.1 = 0%Z ∨ code out.1 = 1%Z) ∧
  (code out.1 = 0%Z ↔
   ∃ site version, last out.2 = Some (ReleasesCreate site version (Ok tt))) ∧
  (code out.1 = 0%Z → stderr out.1 = "") ∧
  (code out.1 = 1%Z →
   ∃ e, run (Demo.Unmarshal []) Demo.gzip Demo.Sum256 Demo.NewRequest
          (Demo.loc (Ok Demo.site)) Faulty.unreleased [] = (Err e, out.2) ∧
        stderr out.1 = e +:+ newline).
Proof.
  apply (X14_exit_status_tells_release (λ _, None) (Demo.Unmarshal []) Demo.gzip
           Demo.Sum256 Demo.NewRequest [] (Demo.loc (Ok Demo.site))
           Faulty.unreleased).
  - reflexivity.
  - vm_compute. reflexivity.
Defined.

Example demo_exit_on_failed_release :
  (main (λ _, None) (Demo.Unmarshal []) Demo.gzip Demo.Sum256 Demo.NewRequest []
     (Demo.loc (Ok Demo.site)) Faulty.unreleased).1 =
  {| code := 1;
     stderr := "release sites/demo/versions/1: permission denied" +:+ newline |}.
Proof. vm_compute. reflexivity. Qed.

(** * The shared readers *)

Lemma foldl_drain_lookup (store : gmap string (list byte)) l h :
  foldl (flip drain) store l !! h =
  if decide (h ∈ l) then (λ _, []) <$> store !! h else store !! h.
Proof.
  revert store. induction l as [|h' l IH]; intros store; [done|].
  cbn [foldl flip]. rewrite IH. unfold drain. rewrite lookup_alter.
  destruct (decide (h' = h)) as [->|Hne].
  - destruct (decide (h ∈ h :: l)) as [_|Hn]; [|exfalso; apply Hn; by left].
    destruct (decide (h ∈ l)); by destruct (store !! h).
  - destruct (decide (h ∈ l)) as [Hl|Hl];
      destruct (decide (h ∈ h' :: l)) as [Hin|Hin]; try done.
    + exfalso. apply Hin. by right.
    + by apply elem_of_cons in Hin as [->|?].
Qed.

Lemma uploaded_lookup NewRequest version url hs store r evs j ep body a :
  uploaded NewRequest version url hs store r evs →
  evs !! j = Some (Post ep body a) →
  ∃ h, hs !! j = Some h ∧ ep = url +:+ "/" +:+ h ∧
       body = foldl (flip drain) store (take j hs) !! h.
Proof.
  destruct 1 as [pre h post rs e lst -> Hlen Hall Hstop|rs a' Hlen Hall _]; intros Hj.
  - pose proof (posts_length url store pre rs Hlen) as Hplen.
    apply lookup_app_Some in Hj as [Hj|[Hge Hj]].
    + apply posts_lookup in Hj as (h' & r' & Hh' & _ & [= -> -> _]).
      assert (j < length pre) by (by eapply lookup_lt_Some).
      exists h'. split_and!; [by rewrite lookup_app_l| done|].
      by rewrite take_app_le by lia.
    + rewrite Hplen in Hge, Hj.
      assert (j = length pre ∧ ep = url +:+ "/" +:+ h ∧
              body = foldl (flip drain) store pre !! h) as (-> & -> & ->).
      { destruct Hstop as [e0 _|e0 _|res _ _]; [done|..];
          (destruct (j - length pre) eqn:Hd; [|done]);
          injection Hj as <- <- _; split_and!; try done; lia. }
      exists h. split_and!; [by rewrite list_lookup_middle|done|].
      by rewrite take_app_length.
  - apply lookup_app_Some in Hj as [Hj|[Hge Hj]].
    + apply posts_lookup in Hj as (h' & r' & Hh' & _ & [= -> -> _]). by exists h'.
    + by destruct (j - length (posts url store hs rs)) as [|[|]].
Qed.

(** X15. The readers of the content store are shared and are read once: when
    [uploadFiles] posts to the same endpoint a second time (a hash that the
    required list names again), the later request carries no content: a nil
    body if the first had one, an empty one otherwise. *)
Theorem X15_second_post_is_empty
    NewRequest svc version hs url (store : gmap string (list byte)) tr r evs
    i j ep body1 a1 body2 a2 :
  uploadFiles NewRequest svc version hs url store tr = (r, tr ++ evs) →
  i < j →
  evs !! i = Some (Post ep body1 a1) →
  evs !! j = Some (Post ep body2 a2) →
  body2 = (λ _, []) <$> body1 ∧ (body2 = None ∨ body2 = Some []).
Proof.
  intros (evs' & ->%app_inv_head & Hup)%uploadFiles_inv Hij Hi Hj.
  destruct (uploaded_lookup _ _ _ _ _ _ _ _ _ _ _ Hup Hi) as (h & Hhi & -> & ->).
  destruct (uploaded_lookup _ _ _ _ _ _ _ _ _ _ _ Hup Hj) as (h' & Hhj & Hep & ->).
  apply endpoint_inj in Hep as <-.
  rewrite !foldl_drain_lookup.
  assert (h ∈ take j hs) as Hin.
  { apply list_elem_of_lookup. exists i. by rewrite lookup_take_lt. }
  rewrite (decide_True _ _ Hin). split.
  - case_decide; [|done]. by destruct (store !! h).
  - destruct (store !! h); [by right|by left].
Qed.

Lemma X15_witness :
  let out := uploadFiles Demo.NewRequest (Demo.svc [] Demo.ok200 "FINALIZED") "v1"
               [Demo.H1; Demo.H2; Demo.H1] "https://upload.test/files"
               Demo.store [] in
  out.2 !! 0 = Some (Post ("https://upload.test/files/" +:+ Demo.H1)
                       (Some Demo.index) (Ok Demo.ok200)) ∧
  out.2 !! 2 = Some (Post ("https://upload.test/files/" +:+ Demo.H1)
                       (Some []) (Ok Demo.ok200)) ∧
  Some ([] : list byte) = (λ _, []) <$> Some Demo.index ∧
  (Some ([] : list byte) = None ∨ Some ([] : list byte) = Some []).
Proof.
  split; [reflexivity|]. split; [reflexivity|].
  eapply (X15_second_post_is_empty Demo.NewRequest
           (Demo.svc [] Demo.ok200 "FINALIZED") "v1" [Demo.H1; Demo.H2; Demo.H1]
           "https://upload.test/files" Demo.store [] (Ok tt) _ 0 2
           ("https://upload.test/files/" +:+ Demo.H1) _ (Ok Demo.ok200) _
           (Ok Demo.ok200)).
  - vm_compute. reflexivity.
  - lia.
  - reflexivity.
  - reflexivity.
Defined.
